(** * mpp router: selection refresh, rewriter installation, status and retry

    A shallow embedding of [pkg/router/router.go].  The router keeps the
    result of the last backend selection, a URL rewriter closed over that
    result, and a pair of synchronisation objects (a one-slot channel,
    [theConch], and a read/write mutex, [selectionInProgress]) that gate
    the refresh.

    Layout: the data model and the sequential code first (URLs, [equal],
    the writer pass of [doSelection], [Status], the rewriter, the retry
    predicate), then the interleaving model of concurrent [doSelection]
    calls, then the properties. *)

From Stdlib Require Import ZArith String Ascii.
From stdpp Require Import base decidable option list strings.

Local Open Scope Z_scope.

(** ** Go run-time failures *)

(** The two run-time panics the modelled code can raise. *)
Inductive panic : Type :=
| IndexOutOfRange   (* s[i] with i outside [0, len(s)) *)
| NilDereference.   (* field access through a nil pointer *)

Inductive outcome (A : Type) : Type :=
| Ok (a : A)
| Panicked (p : panic).
Arguments Ok {A} a.
Arguments Panicked {A} p.

#[global] Instance panic_eq_dec : EqDecision panic.
Proof. solve_decision. Defined.

(** ** net/url.URL

    The struct of Go's standard library, with the fields it has in the Go
    release the repository was written for.  [User] is a pointer
    ([*Userinfo]); Go's [==] on structs compares it by address, so it is
    modelled by an optional address. *)
Record URL : Type := mkURL {
  Scheme : string;
  Opaque : string;
  User : option nat;
  Host : string;
  Path : string;
  RawPath : string;
  ForceQuery : bool;
  RawQuery : string;
  Fragment : string
}.

#[global] Instance URL_eq_dec : EqDecision URL.
Proof. solve_decision. Defined.

(** [s[i]] on a slice, with Go's bounds check. *)
Definition index {A : Type} (s : list A) (i : Z) : outcome A :=
  if i <? 0 then Panicked IndexOutOfRange
  else match s !! Z.to_nat i with
       | Some x => Ok x
       | None => Panicked IndexOutOfRange
       end.

(** ** func equal(a, b []*url.URL) bool

    [for i, v := range a { if *v != *b[i] { return false } }
     return len(a) == len(b)].
    The slices hold non-nil pointers; an element is modelled by the struct
    it points to, which is what [*v != *b[i]] compares.  [rest] is the part
    of [a] the loop has still to visit and [i] the index of its head. *)
Fixpoint equal_loop (i : nat) (rest a b : list URL) : outcome bool :=
  match rest with
  | [] => Ok (bool_decide (length a = length b))
  | v :: rest' =>
      match index b (Z.of_nat i) with
      | Panicked p => Panicked p
      | Ok w => if decide (v = w) then equal_loop (S i) rest' a b else Ok false
      end
  end.

Definition equal (a b : list URL) : outcome bool := equal_loop 0 a a b.

(** ** func contains(a []*url.URL, u *url.URL) bool

    [for _, v := range a { if *u == *v { return true } }; return false]. *)
Fixpoint contains (a : list URL) (u : URL) : bool :=
  match a with
  | [] => false
  | v :: a' => if decide (u = v) then true else contains a' u
  end.

(** ** func backend(u *url.URL) string

    [fmt.Sprintf("%s://%s", u.Scheme, u.Host)]. *)
Definition backend (u : URL) : string :=
  Scheme u +:+ "://" +:+ Host u.

(** ** Package selector (the parts the router uses)

    The package itself is not part of the modelled file; the router relies
    on the [Result] struct, on the [Strategy] field of [Selector] and on the
    methods of the strategy interface, which are taken as given. *)
Module selector.

(** [Candidates] is [[]*locator.PrometheusEndpoint], an opaque type here. *)
Record Result (PrometheusEndpoint : Type) : Type := mkResult {
  Candidates : list PrometheusEndpoint;
  Selection : list URL
}.
Arguments mkResult {_} _ _.
Arguments Candidates {_} _.
Arguments Selection {_} _.

(** The strategy interface.  [NextIndex] may advance a cursor, so it
    returns the strategy's next state with the index (a Go [int]). *)
Class StrategyMethods (S : Type) : Type := {
  Name : S -> string;
  Description : S -> string;
  ComparisonMetricName : S -> string;
  NextIndex : S -> list URL -> Z * S
}.

Record Selector (S : Type) : Type := mkSelector {
  Strategy : S
}.
Arguments mkSelector {_} _.
Arguments Strategy {_} _.

End selector.

(** What one call of [r.selector.Select()] hands back: a result pointer
    ([None] is nil) and an error ([None] is nil, otherwise its message). *)
Definition SelectOutcome (PE : Type) : Type :=
  (option (selector.Result PE) * option string)%type.

(** ** Router state *)

(** [type urlRewriter func(u *url.URL)].  The only closure ever stored is
    the one built in [doSelection]; it captures the variable [result], so
    it is represented by the result it closes over. *)
Record urlRewriter (PE : Type) : Type := mkRewriter {
  captured : selector.Result PE
}.
Arguments mkRewriter {_} _.
Arguments captured {_} _.

(** The two collectors of [r.metrics] that [doSelection] touches: a gauge
    (its value is [float64(len(...))], an integer) and a counter. *)
Record metricsT : Type := mkMetrics {
  selectedBackends : Z;
  selectionEvents : nat
}.

(** The fields of [Router] that the sequential code reads and writes.
    [theConch] and [selectionInProgress] live in the concurrent state
    further down; [locators], [forward] and [buffer] are never read by the
    modelled functions.  [installs] is a ghost field: the number of times
    the assignment [r.rewriter = func ...] has been executed. *)
Record Router (PE AO S : Type) : Type := mkRouter {
  selector : selector.Selector S;
  selection : option (selector.Result PE);
  rewriter : option (urlRewriter PE);
  affinityOptions : list AO;
  interval : Z;
  metrics : metricsT;
  installs : nat
}.
Arguments mkRouter {_ _ _} _ _ _ _ _ _ _.
Arguments selector {_ _ _} _.
Arguments selection {_ _ _} _.
Arguments rewriter {_ _ _} _.
Arguments affinityOptions {_ _ _} _.
Arguments interval {_ _ _} _.
Arguments metrics {_ _ _} _.
Arguments installs {_ _ _} _.

(** [type Status struct]. *)
Record Status (PE : Type) : Type := mkStatus {
  Endpoints : list PE;
  Strategy : string;
  StrategyDescription : string;
  AffinityOptions : string;
  ComparisonMetric : string;
  Interval : Z
}.
Arguments mkStatus {_} _ _ _ _ _ _.
Arguments Endpoints {_} _.
Arguments Strategy {_} _.
Arguments StrategyDescription {_} _.
Arguments AffinityOptions {_} _.
Arguments ComparisonMetric {_} _.
Arguments Interval {_} _.

(** ** Formatting helpers used by [Status] *)

(** Membership of a byte in a cutset (the second argument of
    [strings.Trim]). *)
Fixpoint inCutset (cutset : string) (c : ascii) : bool :=
  match cutset with
  | EmptyString => false
  | String d cutset' => if decide (c = d) then true else inCutset cutset' c
  end.

Fixpoint TrimLeft (s cutset : string) : string :=
  match s with
  | EmptyString => EmptyString
  | String c s' => if inCutset cutset c then TrimLeft s' cutset else s
  end.

Fixpoint TrimRight (s cutset : string) : string :=
  match s with
  | EmptyString => EmptyString
  | String c s' =>
      match TrimRight s' cutset with
      | EmptyString => if inCutset cutset c then EmptyString else String c EmptyString
      | t => String c t
      end
  end.

(** [strings.Trim(s, cutset)]: all leading and trailing bytes that occur in
    [cutset] removed. *)
Definition Trim (s cutset : string) : string :=
  TrimRight (TrimLeft s cutset) cutset.

(** Elements of a slice as [%v] prints them between the brackets:
    separated by one space. *)
Fixpoint joinSpace (l : list string) : string :=
  match l with
  | [] => EmptyString
  | [x] => x
  | x :: l' => x +:+ " " +:+ joinSpace l'
  end.

(** [fmt.Sprintf("%v", s)] for a slice [s] whose elements print as
    [fmtElem] says. *)
Definition Sprintf_v {A : Type} (fmtElem : A -> string) (s : list A) : string :=
  "[" +:+ joinSpace (fmtElem <$> s) +:+ "]".

(** ** The sequential code of the router *)

Section RouterCode.

Context {PE AO S : Type}.
Context `{!selector.StrategyMethods S}.
(** How one [AffinityOption] prints under [%v]; the type is declared in
    another file of the package. *)
Context (fmtAffinityOption : AO -> string).

#[local] Abbreviation RouterT := (Router PE AO S).
#[local] Abbreviation ResultT := (selector.Result PE).

(** Code that reads and writes the router and may panic. *)
Definition M (A : Type) : Type := RouterT -> outcome (A * RouterT).

Definition ret {A : Type} (a : A) : M A := fun r => Ok (a, r).

Definition bind {A B : Type} (m : M A) (k : A -> M B) : M B :=
  fun r => match m r with
           | Ok (a, r') => k a r'
           | Panicked p => Panicked p
           end.

#[local] Notation "'do' x <- m ; k" := (bind m (fun x => k))
  (at level 10, x name, m at level 100, k at level 200).
#[local] Notation "m ;; k" := (bind m (fun _ => k))
  (at level 100, k at level 200, right associativity).

Definition get : M RouterT := fun r => Ok (r, r).

Definition lift {A : Type} (o : outcome A) : M A :=
  fun r => match o with
           | Ok a => Ok (a, r)
           | Panicked p => Panicked p
           end.

(** Reading through a pointer. *)
Definition deref {A : Type} (p : option A) : M A :=
  fun r => match p with
           | Some a => Ok (a, r)
           | None => Panicked NilDereference
           end.

(** [r.selection = result] *)
Definition setSelection (result : ResultT) : M unit :=
  fun r => Ok (tt, mkRouter (selector r) (Some result) (rewriter r)
                     (affinityOptions r) (interval r) (metrics r) (installs r)).

(** [r.rewriter = func(u *url.URL) { ... result ... }] *)
Definition installRewriter (result : ResultT) : M unit :=
  fun r => Ok (tt, mkRouter (selector r) (selection r) (Some (mkRewriter result))
                     (affinityOptions r) (interval r) (metrics r) (Datatypes.S (installs r))).

(** [r.metrics.selectedBackends.Set(v)] *)
Definition setSelectedBackends (v : Z) : M unit :=
  fun r => Ok (tt, mkRouter (selector r) (selection r) (rewriter r)
                     (affinityOptions r) (interval r)
                     (mkMetrics v (selectionEvents (metrics r))) (installs r)).

(** [r.metrics.selectionEvents.Inc()] *)
Definition incSelectionEvents : M unit :=
  fun r => Ok (tt, mkRouter (selector r) (selection r) (rewriter r)
                     (affinityOptions r) (interval r)
                     (mkMetrics (selectedBackends (metrics r))
                                (Datatypes.S (selectionEvents (metrics r)))) (installs r)).

(** The strategy behind [r.selector.Strategy] moves to state [st]. *)
Definition setStrategy (st : S) : M unit :=
  fun r => Ok (tt, mkRouter (selector.mkSelector st) (selection r) (rewriter r)
                     (affinityOptions r) (interval r) (metrics r) (installs r)).

(** [r.selection == nil || !equal(r.selection.Selection, result.Selection)];
    [||] evaluates [equal] only when the stored pointer is not nil. *)
Definition selectionChanged (result : ResultT) : M bool :=
  do r <- get;
  match selection r with
  | None => ret true
  | Some prev =>
      do same <- lift (equal (selector.Selection prev) (selector.Selection result));
      ret (negb same)
  end.

(** The [if]/[else] of [doSelection] that merges the new result into the
    router (lines 104 to 131); the logging calls change no state and are
    left out. *)
Definition mergeResult (result : ResultT) (err : option string) : M unit :=
  if bool_decide (length (selector.Selection result) = 0%nat) then
    match err with
    | Some _ =>
        do r <- get;
        match selection r with
        | None => setSelection result
        | Some _ => ret tt
        end
    | None => setSelection result
    end
  else
    do changed <- selectionChanged result;
    (if changed : bool then installRewriter result else ret tt);;
    setSelection result.

(** What the writer does between [Lock()] and the send on [theConch],
    given what [Select()] returned. *)
Definition writerPass (o : SelectOutcome PE) : M unit :=
  do result <- deref (fst o);
  mergeResult result (snd o);;
  setSelectedBackends (Z.of_nat (length (selector.Selection result)));;
  incSelectionEvents.

(** A run of writer passes, one after the other. *)
Fixpoint runPasses (os : list (SelectOutcome PE)) (r : RouterT) : outcome RouterT :=
  match os with
  | [] => Ok r
  | o :: os' =>
      match writerPass o r with
      | Ok (_, r') => runPasses os' r'
      | Panicked p => Panicked p
      end
  end.

(** [func (r *Router) Status() *Status] *)
Definition Router_Status : M (Status PE) :=
  do r <- get;
  do sel <- deref (selection r);
  let strategy := selector.Strategy (selector r) in
  ret (mkStatus (selector.Candidates sel)
                (selector.Name strategy)
                (selector.Description strategy)
                (Trim (Sprintf_v fmtAffinityOption (affinityOptions r)) "[]")
                (selector.ComparisonMetricName strategy)
                (interval r)).

(** Calling a stored rewriter on [u]: the body of the closure of
    [doSelection].  The URL is changed in place; the changed URL is the
    value returned. *)
Definition callRewriter (rw : urlRewriter PE) (u : URL) : M URL :=
  do r <- get;
  let selection := selector.Selection (captured rw) in
  let '(i, st) := selector.NextIndex (selector.Strategy (selector r)) selection in
  setStrategy st;;
  do target <- lift (index selection i);
  ret (mkURL (Scheme target) (Opaque u) (User u) (Host target) (Path u)
             (RawPath u) (ForceQuery u) (RawQuery u) (Fragment u)).

End RouterCode.

(** ** The retry expression handed to the buffer

    [buffer.Retry(`IsNetworkError() && Attempts() < 2`)]: the buffer
    evaluates the expression after an attempt, in a context that tells
    whether the attempt ended in a network error and how many attempts have
    been made. *)
Record retryContext : Type := mkRetryContext {
  IsNetworkError : bool;
  Attempts : Z
}.

Definition retryExpression (c : retryContext) : bool :=
  IsNetworkError c && (Attempts c <? 2).

(** How one round trip through the forwarder ends. *)
Inductive roundTrip : Type :=
| Success
| NetworkError
| ApplicationError.

#[global] Instance roundTrip_eq_dec : EqDecision roundTrip.
Proof. solve_decision. Defined.

Definition isNetworkError (x : roundTrip) : bool :=
  match x with
  | NetworkError => true
  | _ => false
  end.

(** Modelled from the spec: the retry loop of the forwarding transport (the
    buffer package the router imports; its code is not under src/).
    "On a network-level failure, retry up to a small fixed attempt count
    against the same resolved target before surfacing failure to the
    caller; no retry on non-network errors": after attempt number
    [attempt] the buffer asks the retry expression, with the attempts made
    so far, whether to go again; [budget] is the number of further attempts
    the buffer would allow whatever the expression says.  The value is the
    number of attempts made and the outcome handed to the caller. *)
Fixpoint serveWithRetry (transport : nat -> roundTrip) (budget attempt : nat)
  : nat * roundTrip :=
  let response := transport attempt in
  match budget with
  | O => (attempt, response)
  | Datatypes.S budget' =>
      if retryExpression (mkRetryContext (isNetworkError response) (Z.of_nat attempt))
      then serveWithRetry transport budget' (Datatypes.S attempt)
      else (attempt, response)
  end.

(** [r.buffer.ServeHTTP]: the first attempt is attempt 1. *)
Definition ServeHTTP (transport : nat -> roundTrip) (budget : nat) : nat * roundTrip :=
  serveWithRetry transport budget 1.

(** ** Concurrent calls of doSelection

    Goroutines interleave at the synchronisation operations of
    [doSelection]; each such operation is one atomic step. *)

(** Where a goroutine stands in [doSelection]. *)
Inductive pc : Type :=
| Idle        (* not in doSelection *)
| HasConch    (* received from theConch; Lock() not yet called *)
| LockWait    (* in Lock(): announced as writer, waiting for readers to leave *)
| Locked      (* Lock() has returned; Select() not yet called *)
| Selecting   (* in r.selector.Select() *)
| Merged      (* result merged, metrics updated; about to send on theConch *)
| Unlocking   (* token returned; the deferred Unlock() is next *)
| WantRead    (* default branch taken; RLock() not yet returned *)
| Reading     (* RLock() has returned; the deferred RUnlock() is next *)
| Returned.   (* doSelection has returned *)

#[global] Instance pc_eq_dec : EqDecision pc.
Proof. solve_decision. Defined.

(** A goroutine: its position, and three ghost fields about its current
    call of [doSelection]: whether its [select] received the token, the
    value of the [selectionEvents] counter when its [select] ran, and how
    many times it has called [Select()]. *)
Record goroutine : Type := mkGoroutine {
  at_pc : pc;
  tookConch : bool;
  seenEvents : nat;
  selectCalls : nat
}.

(** [sync.RWMutex]: [writer] is set from the moment a [Lock()] has
    announced itself (new readers are held back from then on) until the
    matching [Unlock()]; [readers] counts the read locks held. *)
Record RWMutex : Type := mkRWMutex {
  writer : bool;
  readers : nat
}.

Section Concurrency.

Context {PE AO S : Type}.
Context `{!selector.StrategyMethods S}.

(** The shared router, the number of tokens buffered in [theConch] (a
    channel of capacity 1), the mutex, the goroutines, and the panic that
    has brought the process down, if any. *)
Record System : Type := mkSystem {
  router : Router PE AO S;
  theConch : nat;
  selectionInProgress : RWMutex;
  goroutines : list goroutine;
  crashed : option panic
}.

Inductive action : Type :=
| Spawn                                         (* a new goroutine appears *)
| Step (t : nat)                                (* goroutine t takes its next step *)
| SelectReturns (t : nat) (o : SelectOutcome PE). (* Select() returns o to t *)

Definition moveTo (t : nat) (g : goroutine) (s : System) : System :=
  mkSystem (router s) (theConch s) (selectionInProgress s)
           (<[t := g]> (goroutines s)) (crashed s).

Definition at_ (g : goroutine) (p : pc) : goroutine :=
  mkGoroutine p (tookConch g) (seenEvents g) (selectCalls g).

(** The [select] statement at the head of [doSelection]. *)
Definition enter (t : nat) (s : System) : System :=
  let seen := selectionEvents (metrics (router s)) in
  match theConch s with
  | Datatypes.S n =>
      mkSystem (router s) n (selectionInProgress s)
               (<[t := mkGoroutine HasConch true seen 0]> (goroutines s)) (crashed s)
  | O =>
      moveTo t (mkGoroutine WantRead false seen 0) s
  end.

Definition setMutex (m : RWMutex) (s : System) : System :=
  mkSystem (router s) (theConch s) m (goroutines s) (crashed s).

(** One step of goroutine [t]; [None] when the goroutine is blocked, is
    waiting for [Select()] to return, or does not exist, and after a
    crash. *)
Definition step (t : nat) (s : System) : option System :=
  match crashed s with
  | Some _ => None
  | None =>
      g ← goroutines s !! t;
      let m := selectionInProgress s in
      match at_pc g with
      | Idle | Returned => Some (enter t s)
      | HasConch =>
          if writer m then None
          else Some (moveTo t (at_ g LockWait) (setMutex (mkRWMutex true (readers m)) s))
      | LockWait =>
          match readers m with
          | O => Some (moveTo t (at_ g Locked) s)
          | _ => None
          end
      | Locked =>
          Some (moveTo t (mkGoroutine Selecting (tookConch g) (seenEvents g)
                                      (Datatypes.S (selectCalls g))) s)
      | Selecting => None
      | Merged =>
          match theConch s with
          | O => Some (mkSystem (router s) 1 m (<[t := at_ g Unlocking]> (goroutines s))
                                (crashed s))
          | _ => None
          end
      | Unlocking =>
          Some (moveTo t (at_ g Returned) (setMutex (mkRWMutex false (readers m)) s))
      | WantRead =>
          if writer m then None
          else Some (moveTo t (at_ g Reading)
                            (setMutex (mkRWMutex false (Datatypes.S (readers m))) s))
      | Reading =>
          Some (moveTo t (at_ g Returned)
                       (setMutex (mkRWMutex (writer m) (Nat.pred (readers m))) s))
      end
  end.

(** [Select()] returns [o] to goroutine [t], which merges it and updates
    the metrics.  Neither caller of [doSelection] in the file recovers, so
    a panic there ends the process: no step follows it. *)
Definition selectReturns (t : nat) (o : SelectOutcome PE) (s : System) : option System :=
  match crashed s with
  | Some _ => None
  | None =>
      g ← goroutines s !! t;
      match at_pc g with
      | Selecting =>
          match writerPass o (router s) with
          | Ok (_, r') =>
              Some (mkSystem r' (theConch s) (selectionInProgress s)
                             (<[t := at_ g Merged]> (goroutines s)) None)
          | Panicked p =>
              Some (mkSystem (router s) (theConch s) (selectionInProgress s)
                             (goroutines s) (Some p))
          end
      | _ => None
      end
  end.

Definition perform (a : action) (s : System) : option System :=
  match a with
  | Spawn =>
      match crashed s with
      | Some _ => None
      | None => Some (mkSystem (router s) (theConch s) (selectionInProgress s)
                               (goroutines s ++ [mkGoroutine Idle false 0 0]) None)
      end
  | Step t => step t s
  | SelectReturns t o => selectReturns t o s
  end.

Fixpoint exec (schedule : list action) (s : System) : option System :=
  match schedule with
  | [] => Some s
  | a :: schedule' => s' ← perform a s; exec schedule' s'
  end.

(** One call of [doSelection] by goroutine [t] with nobody else moving:
    the seven steps of the writer's path. *)
Definition callAlone (t : nat) (o : SelectOutcome PE) : list action :=
  [Step t; Step t; Step t; Step t; SelectReturns t o; Step t; Step t].

(** [func NewRouter], which returns a router and an error.  [newSelector] is what
    [selector.NewSelector] returns, [newMetrics] what [newMetrics] returns,
    [o] what the first [Select()] returns.  The caller is goroutine 0; the
    refresh loop started by the [go] statement is goroutine 1.  [inr] is the
    error return; [None] means that the call does not return (the first
    selection panicked). *)
Definition NewRouter (interval : Z) (affinityOptions : list AO)
    (newSelector : selector.Selector S + string) (newMetrics : metricsT)
    (o : SelectOutcome PE) : option (System + string) :=
  match newSelector with
  | inr err => Some (inr err)
  | inl sel =>
      let r := mkRouter sel None None affinityOptions interval newMetrics 0 in
      let s := mkSystem r 1 (mkRWMutex false 0) [mkGoroutine Idle false 0 0] None in
      s' ← exec (callAlone 0 o ++ [Spawn]) s;
      Some (inl s')
  end.

End Concurrency.

Arguments System : clear implicits.
Arguments action : clear implicits.

(** ** Predicates used in the statements *)

(** The stored rewriter, if any, closes over a non-empty selection. *)
Definition rewriterNonEmpty {PE AO S : Type} (r : Router PE AO S) : Prop :=
  forall rw, rewriter r = Some rw -> selector.Selection (captured rw) <> [].

(** Positions at which a goroutine holds the token of [theConch]: from the
    receive to the send. *)
Definition holdsConch (p : pc) : bool :=
  match p with
  | HasConch | LockWait | Locked | Selecting | Merged => true
  | _ => false
  end.

(** Number of goroutines whose position satisfies [P]. *)
Fixpoint countAt (P : pc -> bool) (gs : list goroutine) : nat :=
  match gs with
  | [] => 0%nat
  | g :: gs' => ((if P (at_pc g) then 1 else 0) + countAt P gs')%nat
  end.

(** The token is either in the channel or with exactly one goroutine. *)
Definition tokenConserved {PE AO S : Type} (s : System PE AO S) : Prop :=
  (theConch s + countAt holdsConch (goroutines s) = 1)%nat.

(** A goroutine whose [select] did not receive the token is on the
    reader's path and has not called [Select()]. *)
Definition waiterPath (g : goroutine) : Prop :=
  tookConch g = false ->
  selectCalls g = 0%nat /\
  (at_pc g = Idle \/ at_pc g = WantRead \/ at_pc g = Reading \/ at_pc g = Returned).

Definition waitersIdle {PE AO S : Type} (s : System PE AO S) : Prop :=
  forall t g, goroutines s !! t = Some g -> waiterPath g.

(** Positions of the writer's path after the merge. *)
Definition afterMerge (p : pc) : bool :=
  match p with
  | Merged | Unlocking | Returned => true
  | _ => false
  end.

(** What a goroutine has seen of the counter of selection events, whose
    value is now [n]: never more than [n]; less than [n] once its own pass
    is merged; and the reader's path is walked without the token. *)
Definition eventsSeen (n : nat) (g : goroutine) : Prop :=
  (seenEvents g <= n)%nat /\
  (tookConch g = true -> afterMerge (at_pc g) = true -> (seenEvents g < n)%nat) /\
  (at_pc g = WantRead \/ at_pc g = Reading -> tookConch g = false).

Definition eventsBound {PE AO S : Type} (s : System PE AO S) : Prop :=
  forall t g, goroutines s !! t = Some g ->
              eventsSeen (selectionEvents (metrics (router s))) g.

(** The byte [c] occurs in [s]. *)
Fixpoint hasByte (c : ascii) (s : string) : bool :=
  match s with
  | EmptyString => false
  | String d s' => if decide (c = d) then true else hasByte c s'
  end.


(** Positions between the announcement of [Lock()] and [Unlock()], and
    those at which the write lock is held. *)
Definition inWriteLock (p : pc) : bool :=
  match p with
  | LockWait | Locked | Selecting | Merged | Unlocking => true
  | _ => false
  end.

Definition holdsWriteLock (p : pc) : bool :=
  match p with
  | Locked | Selecting | Merged | Unlocking => true
  | _ => false
  end.

Definition isReading (p : pc) : bool :=
  match p with
  | Reading => true
  | _ => false
  end.

(** The mutex agrees with the positions of the goroutines: its writer flag
    is set exactly while one goroutine is between the announcement and
    [Unlock()], its reader count is the number of goroutines holding a
    read lock, and nobody reads while the write lock is held. *)
Definition lockConsistent {PE AO S : Type} (s : System PE AO S) : Prop :=
  (if writer (selectionInProgress s) then 1%nat else 0%nat) =
    countAt inWriteLock (goroutines s) /\
  readers (selectionInProgress s) = countAt isReading (goroutines s) /\
  ((1 <= countAt holdsWriteLock (goroutines s))%nat ->
   readers (selectionInProgress s) = 0%nat).

(** Steps a goroutine has still to take before its call returns. *)
Definition rank (p : pc) : nat :=
  match p with
  | Idle | Returned => 0
  | HasConch => 6
  | LockWait => 5
  | Locked => 4
  | Selecting => 3
  | Merged => 2
  | Unlocking => 1
  | WantRead => 2
  | Reading => 1
  end.

Fixpoint work (gs : list goroutine) : nat :=
  match gs with
  | [] => 0%nat
  | g :: gs' => (rank (at_pc g) + work gs')%nat
  end.

(** Nobody is inside [doSelection], the token is in the channel and the
    mutex is free. *)
Definition quiescent {PE AO S : Type} (s : System PE AO S) : Prop :=
  work (goroutines s) = 0%nat /\
  theConch s = 1%nat /\
  selectionInProgress s = mkRWMutex false 0 /\
  crashed s = None.

(** Every call that has returned saw a selection complete between its
    [select] and its return. *)
Definition returnsAfterSelection {PE AO S : Type} (s : System PE AO S) : Prop :=
  forall t g, goroutines s !! t = Some g -> at_pc g = Returned ->
              (seenEvents g < selectionEvents (metrics (router s)))%nat.

(** ** Example data

    Two endpoints, a strategy, selection results and a router, used to run
    the code on concrete inputs.  Candidates and affinity options are
    represented by their printed form. *)

Definition endpointA : URL := mkURL "http" "" None "10.0.0.1:9090" "" "" false "" "".
Definition endpointB : URL := mkURL "http" "" None "10.0.0.2:9090" "" "" false "" "".
Definition incoming : URL := mkURL "https" "" None "mpp.local" "/api/v1/query" "" false "q=up" "".

(** A strategy that walks through the selection in turn; its state is the
    number of picks made so far. *)
#[global] Instance rotate : selector.StrategyMethods nat := {|
  selector.Name := fun _ => "rotate";
  selector.Description := fun _ => "picks the admitted endpoints in turn";
  selector.ComparisonMetricName := fun _ => "none";
  selector.NextIndex := fun n sel => (Z.of_nat n `mod` Z.of_nat (length sel), Datatypes.S n)
|}.

Definition resultAB : selector.Result string :=
  selector.mkResult ["10.0.0.1:9090"; "10.0.0.2:9090"] [endpointA; endpointB].
Definition resultA : selector.Result string :=
  selector.mkResult ["10.0.0.1:9090"; "10.0.0.2:9090"] [endpointA].
Definition resultNone : selector.Result string :=
  selector.mkResult [] [].

(** The router as [NewRouter] builds it, before the first selection. *)
Definition freshRouter : Router string string nat :=
  mkRouter (selector.mkSelector 0%nat) None None ["sourceip"; "cookies"] 10000000000
           (mkMetrics 0 0) 0.

(** The same router with [resultAB] stored and a rewriter over it
    installed. *)
Definition routerAB : Router string string nat :=
  mkRouter (selector.mkSelector 0%nat) (Some resultAB) (Some (mkRewriter resultAB))
           ["sourceip"; "cookies"] 10000000000 (mkMetrics 2 1) 1.

(** A router whose stored result admits one of two candidates. *)
Definition routerA : Router string string nat :=
  mkRouter (selector.mkSelector 0%nat) (Some resultA) (Some (mkRewriter resultA))
           ["sourceip"; "cookies"] 10000000000 (mkMetrics 1 1) 1.

(** Affinity options and candidates print as they are. *)
Definition fmtString (x : string) : string := x.

(** A strategy that always answers with the index it is pinned to,
    whether the selection has that many elements or not. *)
#[global] Instance pinned : selector.StrategyMethods Z := {|
  selector.Name := fun _ => "pinned";
  selector.Description := fun _ => "always the same index";
  selector.ComparisonMetricName := fun _ => "none";
  selector.NextIndex := fun k _ => (k, k)
|}.

(** [routerAB] with the pinned strategy at index 2, one past the end of
    the selection of [resultAB]. *)
Definition routerPinned : Router string string Z :=
  mkRouter (selector.mkSelector 2) (Some resultAB) (Some (mkRewriter resultAB))
           ["sourceip"; "cookies"] 10000000000 (mkMetrics 2 1) 1.

(** [resultAB] discovered again, with the candidates in another order. *)
Definition resultAB' : selector.Result string :=
  selector.mkResult ["10.0.0.2:9090"; "10.0.0.1:9090"] [endpointA; endpointB].

(** The system [NewRouter] returns when the first [Select()] hands back
    [resultAB] and no error: the caller (goroutine 0) has completed its
    call, the refresh loop (goroutine 1) has not started one. *)
Definition bootedSystem : System string string nat :=
  mkSystem routerAB 1 (mkRWMutex false 0)
           [mkGoroutine Returned true 0 1; mkGoroutine Idle false 0 0] None.

(** [bootedSystem] after [raceSchedule] below: the refresh loop holds the
    token and has not yet called [Lock()]; a third goroutine has come and
    gone. *)
Definition racedSystem : System string string nat :=
  mkSystem routerAB 0 (mkRWMutex false 0)
           [mkGoroutine Returned true 0 1; mkGoroutine HasConch true 1 0;
            mkGoroutine Returned false 1 0] None.

(** A schedule on [bootedSystem]: a third goroutine appears; the refresh
    loop receives the token and is then held up before it calls [Lock()];
    the third goroutine runs its whole call meanwhile. *)
Definition raceSchedule : list (action string) :=
  [Spawn; Step 1; Step 2; Step 2; Step 2].

(** A transport that fails with a network error on the first attempt only,
    one that always fails so, and one that answers the first attempt with
    an application-level error. *)
Definition failsOnce (attempt : nat) : roundTrip :=
  if decide (attempt = 1%nat) then NetworkError else Success.
Definition alwaysFails (attempt : nat) : roundTrip := NetworkError.
Definition appError (attempt : nat) : roundTrip :=
  if decide (attempt = 1%nat) then ApplicationError else Success.

(** * Properties *)

(** ** The equality check *)

Section EqualFacts.

Implicit Types a b rest : list URL.

Lemma index_of_nat {A : Type} (s : list A) (i : nat) :
  index s (Z.of_nat i) =
    match s !! i with Some x => Ok x | None => Panicked IndexOutOfRange end.
Proof.
  unfold index.
  destruct (Z.ltb_spec (Z.of_nat i) 0) as [Hneg | _]; [lia |].
  by rewrite Nat2Z.id.
Qed.

(** The loop panics exactly when it runs past the end of [b]. *)
Lemma equal_loop_panics rest : forall i a b p,
  equal_loop i rest a b = Panicked p <->
  p = IndexOutOfRange /\ exists c, c <> [] /\ rest = drop i b ++ c.
Proof.
  induction rest as [| v rest' IH]; intros i a b p; simpl.
  - split; [discriminate |].
    intros [_ (c & Hc & Heq)]. symmetry in Heq.
    apply app_eq_nil in Heq as [_ ->]. done.
  - rewrite index_of_nat. destruct (b !! i) as [w |] eqn:Hw.
    + rewrite (drop_S _ _ _ Hw). destruct (decide (v = w)) as [-> | Hne].
      * rewrite IH. split.
        -- intros [-> (c & Hc & ->)]. split; [done |]. by exists c.
        -- intros [-> (c & Hc & Heq)]. split; [done |]. exists c.
           simpl in Heq. by inversion Heq.
      * split; [discriminate |].
        intros [_ (c & _ & Heq)]. simpl in Heq. inversion Heq. done.
    + rewrite (drop_ge b i) by (by apply lookup_ge_None). split.
      * intros [= <-]. split; [done |]. by exists (v :: rest').
      * by intros [-> _].
Qed.

(** The loop answers [true] exactly when what is left of [a] is what is
    left of [b] at the same index, up to [b]'s surplus, and the lengths
    agree. *)
Lemma equal_loop_true rest : forall i a b,
  equal_loop i rest a b = Ok true <->
  (exists d, drop i b = rest ++ d) /\ length a = length b.
Proof.
  induction rest as [| v rest' IH]; intros i a b; simpl.
  - split.
    + intros [= Hlen]. apply bool_decide_eq_true in Hlen. split; [by eexists | done].
    + intros [_ Hlen]. f_equal. by apply bool_decide_eq_true.
  - rewrite index_of_nat. destruct (b !! i) as [w |] eqn:Hw.
    + rewrite (drop_S _ _ _ Hw). destruct (decide (v = w)) as [-> | Hne].
      * rewrite IH. split.
        -- intros [(d & ->) Hlen]. split; [by exists d | done].
        -- intros [(d & Heq) Hlen]. split; [| done]. exists d.
           simpl in Heq. by inversion Heq.
      * split; [discriminate |].
        intros [(d & Heq) _]. simpl in Heq. inversion Heq. done.
    + rewrite (drop_ge b i) by (by apply lookup_ge_None). split; [discriminate |].
      intros [(d & Heq) _]. discriminate.
Qed.

Lemma equal_true a b : equal a b = Ok true <-> a = b.
Proof.
  unfold equal. rewrite equal_loop_true, drop_0. split.
  - intros [(d & Hb) Hlen]. subst b. rewrite length_app in Hlen.
    destruct d; [by rewrite app_nil_r | simpl in Hlen; lia].
  - intros <-. split; [exists []; by rewrite app_nil_r | done].
Qed.

Lemma equal_panics a b p :
  equal a b = Panicked p <->
  p = IndexOutOfRange /\ exists c, c <> [] /\ a = b ++ c.
Proof. unfold equal. by rewrite equal_loop_panics, drop_0. Qed.

(** Without a panic the answer is right. *)
Lemma equal_answer a b x : equal a b = Ok x -> x = bool_decide (a = b).
Proof.
  intros H. destruct x.
  - apply equal_true in H. symmetry. by apply bool_decide_eq_true.
  - symmetry. apply bool_decide_eq_false. intros Heq.
    apply equal_true in Heq. congruence.
Qed.

(** [equal] returns whenever [a] is not longer than [b]. *)
Lemma equal_total_when_shorter a b :
  (length a <= length b)%nat -> equal a b = Ok (bool_decide (a = b)).
Proof.
  intros Hlen. destruct (equal a b) as [x | p] eqn:H.
  - f_equal. by apply equal_answer.
  - apply equal_panics in H as [_ (c & Hc & ->)].
    rewrite length_app in Hlen. destruct c; [done | simpl in Hlen; lia].
Qed.

End EqualFacts.

(** ** The writer pass *)

Section WriterPassFacts.

Context {PE AO S : Type}.
Context `{!selector.StrategyMethods S}.

Implicit Types r : Router PE AO S.
Implicit Types result prev : selector.Result PE.

(** Unfolds the state-passing operations of the writer pass. *)
Ltac run :=
  unfold writerPass, mergeResult, selectionChanged, Router_Status, callRewriter,
    bind, ret, get, lift, deref, setSelection, installRewriter,
    setSelectedBackends, incSelectionEvents, setStrategy; simpl.

Lemma empty_selection_test result :
  selector.Selection result = [] ->
  bool_decide (length (selector.Selection result) = 0%nat) = true.
Proof. intros ->. done. Qed.

Lemma nonempty_selection_test result :
  selector.Selection result <> [] ->
  bool_decide (length (selector.Selection result) = 0%nat) = false.
Proof.
  intros Hne. apply bool_decide_eq_false. intros Hlen.
  by apply nil_length_inv in Hlen.
Qed.

(** The merge of a result with a non-empty selection, case by case: with
    nothing stored, or with a stored selection that differs and is not a
    proper extension of the new one, a rewriter over the new result is
    installed; with an equal stored selection the rewriter stays; and when
    the stored selection properly extends the new one the comparison runs
    off the end of the new selection. *)
Lemma mergeResult_nonempty r result err :
  selector.Selection result <> [] ->
  mergeResult result err r =
    match selection r with
    | None =>
        Ok (tt, mkRouter (selector r) (Some result) (Some (mkRewriter result))
                  (affinityOptions r) (interval r) (metrics r) (Datatypes.S (installs r)))
    | Some prev =>
        match equal (selector.Selection prev) (selector.Selection result) with
        | Panicked p => Panicked p
        | Ok true =>
            Ok (tt, mkRouter (selector r) (Some result) (rewriter r)
                      (affinityOptions r) (interval r) (metrics r) (installs r))
        | Ok false =>
            Ok (tt, mkRouter (selector r) (Some result) (Some (mkRewriter result))
                      (affinityOptions r) (interval r) (metrics r) (Datatypes.S (installs r)))
        end
    end.
Proof.
  intros Hne. unfold mergeResult. rewrite (nonempty_selection_test _ Hne). run.
  destruct (selection r) as [prev |]; [| done].
  by destruct (equal _ _) as [[|] | p].
Qed.

(** Selection stability where the comparison returns: the rewriter is
    installed exactly when nothing is stored or the selections differ, and
    the new result is stored either way. *)
Lemma selection_stability r r' result err :
  selector.Selection result <> [] ->
  (forall prev, selection r = Some prev ->
     (length (selector.Selection prev) <= length (selector.Selection result))%nat) ->
  mergeResult result err r = Ok (tt, r') ->
  selection r' = Some result /\
  (installs r' = Datatypes.S (installs r) /\ rewriter r' = Some (mkRewriter result) <->
   selection r = None \/
   exists prev, selection r = Some prev /\
                selector.Selection prev <> selector.Selection result) /\
  (installs r' = installs r /\ rewriter r' = rewriter r <->
   exists prev, selection r = Some prev /\
                selector.Selection prev = selector.Selection result).
Proof.
  intros Hne Hlen. rewrite (mergeResult_nonempty _ _ _ Hne).
  destruct (selection r) as [prev |] eqn:Hsel.
  - rewrite (equal_total_when_shorter _ _ (Hlen prev eq_refl)).
    case_bool_decide as Heq; intros [= <-]; simpl.
    + split; [done |]. split; split.
      * intros [? _]; lia.
      * intros [[=] | (p' & [= <-] & Hd)]. done.
      * intros _. by exists prev.
      * done.
    + split; [done |]. split; split.
      * intros _. right. by exists prev.
      * done.
      * intros [? _]; lia.
      * intros (p' & [= <-] & Hd). done.
  - intros [= <-]; simpl. split; [done |]. split; split.
    + intros _. by left.
    + done.
    + intros [? _]; lia.
    + intros (p' & [=] & _).
Qed.

(** C2: when the new result has no selection and comes with an error, the
    pass completes and the stored result is the previous one if there was
    one; the new result is stored only when nothing was stored before.
    The rewriter is left alone. *)
Theorem last_known_good_on_error r result (err : string) :
  selector.Selection result = [] ->
  exists r',
    writerPass (Some result, Some err) r = Ok (tt, r') /\
    selection r' = match selection r with
                   | Some prev => Some prev
                   | None => Some result
                   end /\
    rewriter r' = rewriter r.
Proof.
  intros Hnil. unfold writerPass, bind, deref; simpl.
  unfold mergeResult. rewrite (empty_selection_test _ Hnil).
  run. destruct (selection r) as [prev |] eqn:Hsel; simpl.
  - eexists. split; [reflexivity |]. simpl. by rewrite Hsel.
  - eexists. split; [reflexivity |]. done.
Qed.

(** C7: when the new result has no selection and no error comes with it,
    the pass completes and the new result replaces whatever was stored. *)
Theorem empty_discovery_adopted r result :
  selector.Selection result = [] ->
  exists r',
    writerPass (Some result, None) r = Ok (tt, r') /\
    selection r' = Some result.
Proof.
  intros Hnil. unfold writerPass, bind, deref; simpl.
  unfold mergeResult. rewrite (empty_selection_test _ Hnil).
  run. eexists. split; reflexivity.
Qed.

(** The merge never touches the metrics. *)
Lemma mergeResult_metrics r r' result err :
  mergeResult result err r = Ok (tt, r') -> metrics r' = metrics r.
Proof.
  unfold mergeResult. case_bool_decide as Hempty.
  - destruct err; run.
    + destruct (selection r); by intros [= <-].
    + by intros [= <-].
  - run. destruct (selection r) as [prev |]; simpl.
    + destruct (equal _ _) as [[|] | p]; simpl; [| | done]; by intros [= <-].
    + by intros [= <-].
Qed.

(** A completed pass has counted itself and set the gauge. *)
Lemma writerPass_counts (o : SelectOutcome PE) r r' :
  writerPass o r = Ok (tt, r') ->
  exists result,
    fst o = Some result /\
    selectedBackends (metrics r') = Z.of_nat (length (selector.Selection result)) /\
    selectionEvents (metrics r') = Datatypes.S (selectionEvents (metrics r)).
Proof.
  destruct o as [[result |] err]; unfold writerPass, bind, deref; simpl; [| done].
  destruct (mergeResult result err r) as [[[] r1] | p] eqn:Hmerge; [| done].
  apply mergeResult_metrics in Hmerge.
  unfold setSelectedBackends, incSelectionEvents. intros [= <-]; simpl.
  exists result. by rewrite Hmerge.
Qed.

(** C8: a writer pass that completes was given a result, has set the gauge
    to the length of that result's selection and has added one to the
    counter of selection events, whichever branch the merge took. *)
Theorem metrics_per_refresh (o : SelectOutcome PE) r r' :
  writerPass o r = Ok (tt, r') ->
  exists result,
    fst o = Some result /\
    selectedBackends (metrics r') = Z.of_nat (length (selector.Selection result)) /\
    selectionEvents (metrics r') = Datatypes.S (selectionEvents (metrics r)).
Proof. apply writerPass_counts. Qed.

(** A pass never stores nil: once a result is stored, one stays stored,
    and a pass that starts with nothing stored stores its result. *)
Lemma writerPass_selection o r r' :
  writerPass o r = Ok (tt, r') -> selection r' <> None.
Proof.
  destruct o as [[result |] err]; unfold writerPass, bind, deref; simpl; [| done].
  destruct (mergeResult result err r) as [[[] r1] | p] eqn:Hmerge; [| done].
  unfold setSelectedBackends, incSelectionEvents. intros [= <-]; simpl.
  revert Hmerge. unfold mergeResult. case_bool_decide as Hempty.
  - destruct err; run.
    + destruct (selection r) eqn:Hsel; intros [= <-]; simpl; by rewrite ?Hsel.
    + by intros [= <-].
  - run. destruct (selection r) as [prev |]; simpl.
    + destruct (equal _ _) as [[|] | p]; simpl; [| | done]; by intros [= <-].
    + by intros [= <-].
Qed.

(** Every rewriter a pass leaves in the router closes over a non-empty
    selection, if the one it found did. *)
Lemma writerPass_rewriter o r r' :
  rewriterNonEmpty r -> writerPass o r = Ok (tt, r') -> rewriterNonEmpty r'.
Proof.
  intros Hinv.
  destruct o as [[result |] err]; unfold writerPass, bind, deref; simpl; [| done].
  destruct (mergeResult result err r) as [[[] r1] | p] eqn:Hmerge; [| done].
  unfold setSelectedBackends, incSelectionEvents. intros [= <-].
  unfold rewriterNonEmpty; simpl.
  revert Hmerge. unfold mergeResult. case_bool_decide as Hempty.
  - destruct err; run.
    + destruct (selection r); intros [= <-]; apply Hinv.
    + intros [= <-]; apply Hinv.
  - assert (selector.Selection result <> []) as Hne.
    { intros Hnil. by rewrite Hnil in Hempty. }
    run. destruct (selection r) as [prev |]; simpl.
    + destruct (equal _ _) as [[|] | p]; simpl; [| | done]; intros [= <-]; simpl.
      * apply Hinv.
      * by intros rw [= <-].
    + intros [= <-]; simpl. by intros rw [= <-].
Qed.

End WriterPassFacts.

(** ** Printing the affinity options *)

Lemma TrimLeft_length (s cutset : string) :
  (String.length (TrimLeft s cutset) <= String.length s)%nat.
Proof.
  induction s as [| c s IH]; simpl; [lia |].
  destruct (inCutset cutset c); simpl; lia.
Qed.

(** A string that [TrimLeft] leaves alone does not start with a byte of
    the cutset. *)
Lemma TrimLeft_fixed (c : ascii) (s cutset : string) :
  TrimLeft (String c s) cutset = String c s -> inCutset cutset c = false.
Proof.
  simpl. destruct (inCutset cutset c); [| done].
  intros Heq. pose proof (TrimLeft_length s cutset) as Hlen.
  rewrite Heq in Hlen. simpl in Hlen. lia.
Qed.

Lemma TrimRight_snoc (s cutset : string) (d : ascii) :
  inCutset cutset d = true ->
  TrimRight (s +:+ String d EmptyString) cutset = TrimRight s cutset.
Proof.
  intros Hd. induction s as [| c s IH]; simpl.
  - by rewrite Hd.
  - by rewrite IH.
Qed.

(** [strings.Trim(fmt.Sprintf("%v", s), "[]")] is the elements of [s]
    separated by spaces, provided that text has no bracket at either end
    of its own. *)
Lemma Trim_Sprintf_v {A : Type} (fmtElem : A -> string) (s : list A) :
  TrimLeft (joinSpace (fmtElem <$> s)) "[]" = joinSpace (fmtElem <$> s) ->
  TrimRight (joinSpace (fmtElem <$> s)) "[]" = joinSpace (fmtElem <$> s) ->
  Trim (Sprintf_v fmtElem s) "[]" = joinSpace (fmtElem <$> s).
Proof.
  unfold Trim, Sprintf_v. generalize (joinSpace (fmtElem <$> s)) as j.
  intros [| c j] Hleft Hright; [reflexivity |].
  apply TrimLeft_fixed in Hleft.
  change ("[" +:+ String c j +:+ "]") with (String "["%char (String c (j +:+ "]"))).
  assert (TrimLeft (String "["%char (String c (j +:+ "]"))) "[]" = String c j +:+ "]")
    as ->.
  { simpl TrimLeft. simpl in Hleft. by rewrite Hleft. }
  rewrite TrimRight_snoc; done.
Qed.

(** ** Status and the rewriter *)

Section StatusFacts.

Context {PE AO S : Type}.
Context `{!selector.StrategyMethods S}.
Context (fmtAffinityOption : AO -> string).

Implicit Types r : Router PE AO S.

(** [Status] with a result stored. *)
Lemma Router_Status_stored r (sel : selector.Result PE) :
  selection r = Some sel ->
  Router_Status fmtAffinityOption r =
    Ok (mkStatus (selector.Candidates sel)
                 (selector.Name (selector.Strategy (selector r)))
                 (selector.Description (selector.Strategy (selector r)))
                 (Trim (Sprintf_v fmtAffinityOption (affinityOptions r)) "[]")
                 (selector.ComparisonMetricName (selector.Strategy (selector r)))
                 (interval r),
        r).
Proof.
  intros Hsel. unfold Router_Status, bind, get, deref, ret. by rewrite Hsel.
Qed.

(** C6, as the code has it: with a result stored, [Status] returns the
    candidates of that result (all of them, admitted or not), the three
    descriptions of the strategy, the printed affinity options without the
    surrounding brackets, and the interval; the router is left as it
    was. *)
Theorem Status_projection r (sel : selector.Result PE) :
  selection r = Some sel ->
  Router_Status fmtAffinityOption r =
    Ok (mkStatus (selector.Candidates sel)
                 (selector.Name (selector.Strategy (selector r)))
                 (selector.Description (selector.Strategy (selector r)))
                 (Trim (Sprintf_v fmtAffinityOption (affinityOptions r)) "[]")
                 (selector.ComparisonMetricName (selector.Strategy (selector r)))
                 (interval r),
        r).
Proof. apply Router_Status_stored. Qed.

(** With nothing stored, [Status] dereferences nil. *)
Lemma Status_nil r :
  selection r = None -> Router_Status fmtAffinityOption r = Panicked NilDereference.
Proof.
  intros Hsel. unfold Router_Status, bind, get, deref, ret. by rewrite Hsel.
Qed.

(** X17: The affinity options in the status are the configured options, each
    printed, separated by spaces (when that text has no bracket at either
    end of its own). *)
Lemma Status_affinity_text r (sel : selector.Result PE) :
  selection r = Some sel ->
  TrimLeft (joinSpace (fmtAffinityOption <$> affinityOptions r)) "[]" =
    joinSpace (fmtAffinityOption <$> affinityOptions r) ->
  TrimRight (joinSpace (fmtAffinityOption <$> affinityOptions r)) "[]" =
    joinSpace (fmtAffinityOption <$> affinityOptions r) ->
  exists st,
    Router_Status fmtAffinityOption r = Ok (st, r) /\
    AffinityOptions st = joinSpace (fmtAffinityOption <$> affinityOptions r).
Proof.
  intros Hsel Hleft Hright. eexists. split; [by apply Router_Status_stored |].
  simpl. by apply Trim_Sprintf_v.
Qed.

(** The call of a rewriter with an index in range: the element at that
    index exists, and the URL comes back with that element's scheme and
    host and nothing else changed; the strategy has moved on. *)
Lemma callRewriter_in_range (rw : urlRewriter PE) (u : URL) r (i : Z) (st : S) :
  selector.NextIndex (selector.Strategy (selector r))
                     (selector.Selection (captured rw)) = (i, st) ->
  0 <= i < Z.of_nat (length (selector.Selection (captured rw))) ->
  exists target,
    selector.Selection (captured rw) !! Z.to_nat i = Some target /\
    callRewriter rw u r =
      Ok (mkURL (Scheme target) (Opaque u) (User u) (Host target) (Path u)
                (RawPath u) (ForceQuery u) (RawQuery u) (Fragment u),
          mkRouter (selector.mkSelector st) (selection r) (rewriter r)
                   (affinityOptions r) (interval r) (metrics r) (installs r)).
Proof.
  intros Hnext [Hlo Hhi].
  destruct (lookup_lt_is_Some_2 (selector.Selection (captured rw)) (Z.to_nat i))
    as [target Htarget]; [lia |].
  exists target. split; [done |].
  unfold callRewriter, bind, get, setStrategy, lift, ret, index. rewrite Hnext.
  destruct (Z.ltb_spec i 0) as [Hneg | _]; [lia |]. by rewrite Htarget.
Qed.

(** The call of a rewriter with an index out of range panics. *)
Lemma callRewriter_out_of_range (rw : urlRewriter PE) (u : URL) r (i : Z) (st : S) :
  selector.NextIndex (selector.Strategy (selector r))
                     (selector.Selection (captured rw)) = (i, st) ->
  i < 0 \/ Z.of_nat (length (selector.Selection (captured rw))) <= i ->
  callRewriter rw u r = Panicked IndexOutOfRange.
Proof.
  intros Hnext Hout.
  unfold callRewriter, bind, get, setStrategy, lift, ret, index. rewrite Hnext.
  destruct (Z.ltb_spec i 0) as [Hneg | Hpos]; [done |].
  destruct Hout as [? | Hhi]; [lia |].
  rewrite (proj2 (lookup_ge_None _ _)); [done | lia].
Qed.

End StatusFacts.

(** ** The retry expression *)

Lemma retryExpression_spec (c : retryContext) :
  retryExpression c = true <-> IsNetworkError c = true /\ Attempts c < 2.
Proof.
  unfold retryExpression. rewrite andb_true_iff, Z.ltb_lt. done.
Qed.

(** C5: the retry expression holds exactly for a network error with fewer
    than two attempts made.  So, for a buffer that allows at least one
    further attempt: no request is tried more than twice; a transport
    whose first attempt fails with a network
    error and whose second succeeds is tried twice and the success is
    returned; one whose first two attempts fail with network errors is
    tried twice and the failure is returned; and one whose first attempt
    ends in anything but a network error is tried once. *)
Theorem retry_bound (transport : nat -> roundTrip) (budget : nat) :
  (1 <= budget)%nat ->
  (forall c, retryExpression c = true <-> IsNetworkError c = true /\ Attempts c < 2) /\
  (fst (ServeHTTP transport budget) <= 2)%nat /\
  (transport 1%nat = NetworkError -> transport 2%nat = Success ->
   ServeHTTP transport budget = (2%nat, Success)) /\
  (transport 1%nat = NetworkError -> transport 2%nat = NetworkError ->
   ServeHTTP transport budget = (2%nat, NetworkError)) /\
  (transport 1%nat <> NetworkError ->
   ServeHTTP transport budget = (1%nat, transport 1%nat)).
Proof.
  intros Hbudget. destruct budget as [| budget]; [lia |].
  split; [apply retryExpression_spec |].
  unfold ServeHTTP. repeat split.
  - simpl. destruct (isNetworkError (transport 1%nat)); simpl; [| lia].
    destruct budget; simpl; [lia |].
    unfold retryExpression; simpl. rewrite andb_false_r. simpl. lia.
  - intros H1 H2. simpl. rewrite H1. simpl.
    destruct budget; simpl; rewrite H2; done.
  - intros H1 H2. simpl. rewrite H1. simpl.
    destruct budget; simpl; rewrite H2; done.
  - intros H1. simpl. destruct (transport 1%nat); done.
Qed.

(** ** Concurrent calls *)

Section ConcurrencyFacts.

Context {PE AO S : Type}.
Context `{!selector.StrategyMethods S}.

Implicit Types s : System PE AO S.
Implicit Types a : action PE.
Implicit Types g : goroutine.

Lemma countAt_app P (gs1 gs2 : list goroutine) :
  countAt P (gs1 ++ gs2) = (countAt P gs1 + countAt P gs2)%nat.
Proof. induction gs1 as [| g gs1 IH]; simpl; [done | rewrite IH; lia]. Qed.

(** Moving one goroutine changes the count by that goroutine's share. *)
Lemma countAt_insert P (gs : list goroutine) : forall t g g',
  gs !! t = Some g ->
  (countAt P (<[t := g']> gs) + (if P (at_pc g) then 1 else 0) =
   countAt P gs + (if P (at_pc g') then 1 else 0))%nat.
Proof.
  induction gs as [| h gs IH]; intros t g g' Hg; [done |].
  destruct t as [| t]; simpl in *.
  - injection Hg as ->. lia.
  - specialize (IH t g g' Hg). lia.
Qed.

Lemma countAt_lookup P (gs : list goroutine) : forall t g,
  gs !! t = Some g -> P (at_pc g) = true -> (1 <= countAt P gs)%nat.
Proof.
  induction gs as [| h gs IH]; intros t g Hg HP; [done |].
  destruct t as [| t]; simpl in *.
  - injection Hg as ->. rewrite HP. lia.
  - specialize (IH t g Hg HP). lia.
Qed.

Lemma countAt_two P (gs : list goroutine) : forall t1 t2 g1 g2,
  t1 <> t2 ->
  gs !! t1 = Some g1 -> P (at_pc g1) = true ->
  gs !! t2 = Some g2 -> P (at_pc g2) = true ->
  (2 <= countAt P gs)%nat.
Proof.
  induction gs as [| h gs IH]; intros t1 t2 g1 g2 Hne H1 P1 H2 P2; [done |].
  destruct t1 as [| t1], t2 as [| t2]; simpl in *; [done | | |].
  - injection H1 as ->. rewrite P1.
    pose proof (countAt_lookup P gs t2 g2 H2 P2). lia.
  - injection H2 as ->. rewrite P2.
    pose proof (countAt_lookup P gs t1 g1 H1 P1). lia.
  - assert (t1 <> t2) as Hne' by congruence.
    specialize (IH t1 t2 g1 g2 Hne' H1 P1 H2 P2). lia.
Qed.

(** Splits a successful step into the goroutine that moved and the case
    of its position. *)
Ltac step_cases Hperf g Hg Hpc :=
  unfold step, selectReturns in Hperf;
  destruct (crashed _) eqn:?; [discriminate Hperf |];
  destruct (goroutines _ !! _) as [g |] eqn:Hg; simpl in Hperf; [| discriminate Hperf];
  destruct (at_pc g) eqn:Hpc;
  repeat match type of Hperf with
         | context [if writer ?m then _ else _] => destruct (writer m) eqn:?
         | context [match readers ?m with _ => _ end] => destruct (readers m) eqn:?
         | context [match writerPass ?o ?r with _ => _ end] =>
             destruct (writerPass o r) as [[[] ?] | ?] eqn:?
         end;
  try discriminate Hperf.

Lemma perform_tokenConserved a s s' :
  tokenConserved s -> perform a s = Some s' -> tokenConserved s'.
Proof.
  unfold tokenConserved. intros Hinv Hperf. destruct a as [| t | t o]; simpl in Hperf.
  - destruct (crashed s); [done |]. injection Hperf as <-; simpl.
    rewrite countAt_app; simpl. lia.
  - step_cases Hperf g Hg Hpc;
      try (injection Hperf as <-; unfold moveTo, setMutex; simpl;
           match goal with
           | |- context [<[t := ?g']> _] =>
               pose proof (countAt_insert holdsConch (goroutines s) t g g' Hg) as Hc
           end; simpl in Hc; rewrite Hpc in Hc; simpl in Hc; lia).
    + unfold enter in Hperf. destruct (theConch s) eqn:Hconch;
        injection Hperf as <-; unfold moveTo; simpl;
        match goal with
        | |- context [<[t := ?g']> _] =>
            pose proof (countAt_insert holdsConch (goroutines s) t g g' Hg) as Hc
        end; simpl in Hc; rewrite Hpc in Hc; simpl in Hc; lia.
    + destruct (theConch s) eqn:Hconch; [| done].
      injection Hperf as <-; simpl.
      pose proof (countAt_insert holdsConch (goroutines s) t g (at_ g Unlocking) Hg) as Hc.
      simpl in Hc; rewrite Hpc in Hc; simpl in Hc; lia.
    + unfold enter in Hperf. destruct (theConch s) eqn:Hconch;
        injection Hperf as <-; unfold moveTo; simpl;
        match goal with
        | |- context [<[t := ?g']> _] =>
            pose proof (countAt_insert holdsConch (goroutines s) t g g' Hg) as Hc
        end; simpl in Hc; rewrite Hpc in Hc; simpl in Hc; lia.
  - step_cases Hperf g Hg Hpc; injection Hperf as <-; simpl; [| done].
    pose proof (countAt_insert holdsConch (goroutines s) t g (at_ g Merged) Hg) as Hc.
    simpl in Hc; rewrite Hpc in Hc; simpl in Hc; lia.
Qed.

Lemma exec_tokenConserved schedule : forall s s',
  tokenConserved s -> exec schedule s = Some s' -> tokenConserved s'.
Proof.
  induction schedule as [| a schedule IH]; intros s s' Hinv Hexec; simpl in Hexec.
  - by injection Hexec as <-.
  - destruct (perform a s) as [s1 |] eqn:Hperf; [| done].
    eapply IH; [| exact Hexec]. by eapply perform_tokenConserved.
Qed.

(** Single flight, part one: no two goroutines are inside [Select()] at
    the same time; more, no two hold the token. *)
Lemma one_holder_at_a_time schedule s s' t1 t2 g1 g2 :
  tokenConserved s -> exec schedule s = Some s' ->
  goroutines s' !! t1 = Some g1 -> holdsConch (at_pc g1) = true ->
  goroutines s' !! t2 = Some g2 -> holdsConch (at_pc g2) = true ->
  t1 = t2.
Proof.
  intros Hinv Hexec H1 P1 H2 P2.
  pose proof (exec_tokenConserved _ _ _ Hinv Hexec) as Htok. unfold tokenConserved in Htok.
  destruct (decide (t1 = t2)) as [| Hne]; [done |].
  pose proof (countAt_two holdsConch _ _ _ _ _ Hne H1 P1 H2 P2). lia.
Qed.

Lemma one_select_at_a_time schedule s s' t1 t2 g1 g2 :
  tokenConserved s -> exec schedule s = Some s' ->
  goroutines s' !! t1 = Some g1 -> at_pc g1 = Selecting ->
  goroutines s' !! t2 = Some g2 -> at_pc g2 = Selecting ->
  t1 = t2.
Proof.
  intros Hinv Hexec H1 P1 H2 P2.
  eapply (one_holder_at_a_time schedule s s' t1 t2 g1 g2); eauto.
  - by rewrite P1.
  - by rewrite P2.
Qed.


(** A step either leaves the router alone or is a completed writer
    pass. *)
Lemma perform_router a s s' :
  perform a s = Some s' ->
  router s' = router s \/ exists o, writerPass o (router s) = Ok (tt, router s').
Proof.
  intros Hperf. destruct a as [| t | t o]; simpl in Hperf.
  - destruct (crashed s); [done |]. injection Hperf as <-. by left.
  - left. step_cases Hperf g Hg Hpc; try (by injection Hperf as <-).
    + unfold enter in Hperf. destruct (theConch s); by injection Hperf as <-.
    + destruct (theConch s); [| done]. by injection Hperf as <-.
    + unfold enter in Hperf. destruct (theConch s); by injection Hperf as <-.
  - step_cases Hperf g Hg Hpc; injection Hperf as <-; simpl; [| by left].
    right. by exists o.
Qed.

(** So a property of the router that writer passes keep is kept by every
    schedule. *)
Lemma exec_router_invariant (P : Router PE AO S -> Prop) :
  (forall o r r', P r -> writerPass o r = Ok (tt, r') -> P r') ->
  forall schedule s s', P (router s) -> exec schedule s = Some s' -> P (router s').
Proof.
  intros Hpass. induction schedule as [| a schedule IH]; intros s s' HP Hexec;
    simpl in Hexec.
  - by injection Hexec as <-.
  - destruct (perform a s) as [s1 |] eqn:Hperf; [| done].
    eapply IH; [| exact Hexec].
    destruct (perform_router _ _ _ Hperf) as [-> | [o Ho]]; [done |].
    by eapply Hpass.
Qed.


End ConcurrencyFacts.

(** ** From NewRouter on *)

Section LifetimeFacts.

Context {PE AO S : Type}.
Context `{!selector.StrategyMethods S}.
Context (fmtAffinityOption : AO -> string).

Implicit Types s : System PE AO S.
Implicit Types g : goroutine.

(** A pass that finds nothing stored completes, whatever non-nil result it
    is given, and stores that result. *)
Lemma first_pass_completes (r : Router PE AO S) result err :
  selection r = None ->
  exists r', writerPass (Some result, err) r = Ok (tt, r') /\ selection r' = Some result.
Proof.
  intros Hnil. unfold writerPass, bind, deref; simpl. unfold mergeResult.
  case_bool_decide as Hempty.
  - destruct err;
      unfold bind, get, setSelection, setSelectedBackends, incSelectionEvents;
      rewrite ?Hnil; simpl; eexists; split; reflexivity.
  - unfold selectionChanged, bind, get, ret, installRewriter, setSelection,
      setSelectedBackends, incSelectionEvents.
    rewrite Hnil; simpl. eexists; split; reflexivity.
Qed.

(** What [NewRouter] returns, when it returns a router: the first writer
    pass has completed on the fresh router, the token is back in the
    channel, the mutex is free, and nobody is inside [doSelection]. *)
Lemma NewRouter_inl (i : Z) (ao : list AO) (sel : selector.Selector S) (m : metricsT)
    (o : SelectOutcome PE) s0 :
  NewRouter i ao (inl sel) m o = Some (inl s0) ->
  exists r1,
    writerPass o (mkRouter sel None None ao i m 0) = Ok (tt, r1) /\
    s0 = mkSystem r1 1 (mkRWMutex false 0)
           [mkGoroutine Returned true (selectionEvents m) 1; mkGoroutine Idle false 0 0]
           None.
Proof.
  unfold NewRouter. cbv -[writerPass selectionEvents].
  destruct (writerPass _ _) as [[[] r1] | p] eqn:Hpass; [| done].
  intros [= <-]. by exists r1.
Qed.

(** [NewRouter] does return a router when the selector is built and the
    first [Select()] hands back a result, with or without an error. *)
Lemma NewRouter_returns (i : Z) (ao : list AO) (sel : selector.Selector S) (m : metricsT)
    (result : selector.Result PE) (err : option string) :
  exists s0, NewRouter i ao (inl sel) m (Some result, err) = Some (inl s0).
Proof.
  destruct (first_pass_completes (mkRouter sel None None ao i m 0) result err eq_refl)
    as (r1 & Hpass & _).
  unfold NewRouter. cbv -[writerPass selectionEvents]. rewrite Hpass. by eexists.
Qed.

Lemma NewRouter_tokenConserved (i : Z) (ao : list AO) (sel : selector.Selector S)
    (m : metricsT) (o : SelectOutcome PE) s0 :
  NewRouter i ao (inl sel) m o = Some (inl s0) -> tokenConserved s0.
Proof.
  intros Hnew. apply NewRouter_inl in Hnew as (r1 & _ & ->). reflexivity.
Qed.

(** C9: when [NewRouter] returns a router, the first [Select()] returned a
    result, one writer pass has completed and has stored that result; and
    in every state that any schedule of [doSelection] calls, by any number
    of goroutines, leads to from there, a result is stored and [Status]
    returns without touching the router. *)
Theorem selection_never_nil (i : Z) (ao : list AO) (sel : selector.Selector S)
    (m : metricsT) (o : SelectOutcome PE) s0 :
  NewRouter i ao (inl sel) m o = Some (inl s0) ->
  (exists result,
     fst o = Some result /\
     selection (router s0) = Some result /\
     selectionEvents (metrics (router s0)) = Datatypes.S (selectionEvents m)) /\
  forall schedule s,
    exec schedule s0 = Some s ->
    selection (router s) <> None /\
    exists st, Router_Status fmtAffinityOption (router s) = Ok (st, router s).
Proof.
  intros Hnew. apply NewRouter_inl in Hnew as (r1 & Hpass & ->).
  assert (exists result, fst o = Some result /\ selection r1 = Some result) as Hfirst.
  { destruct o as [[result |] err]; [| done].
    destruct (first_pass_completes (mkRouter sel None None ao i m 0) result err eq_refl)
      as (r' & Hpass' & Hsel).
    rewrite Hpass in Hpass'. injection Hpass' as <-. by exists result. }
  destruct Hfirst as (result & Ho & Hsel). split.
  - exists result. simpl. repeat split; [done.. |].
    destruct (writerPass_counts _ _ _ Hpass) as (_ & _ & _ & Hevents).
    exact Hevents.
  - intros schedule s Hexec.
    assert (selection (router s) <> None) as Hstored.
    { revert Hexec. apply (exec_router_invariant (fun r => selection r <> None)).
      - intros o' r r' _ Ho'. by eapply writerPass_selection.
      - simpl. by rewrite Hsel. }
    split; [done |].
    destruct (selection (router s)) as [stored |] eqn:Hs; [| done].
    eexists. by apply Router_Status_stored.
Qed.

(** C10: the rewriter found in the router in any state reached from
    [NewRouter] closes over a selection with at least one element; and
    whenever the strategy, asked through the router the closure runs on,
    answers with an index inside that selection, the call finds an element
    there and returns the URL with that element's host and scheme. *)
Theorem installed_rewriter_in_range (i : Z) (ao : list AO) (sel : selector.Selector S)
    (m : metricsT) (o : SelectOutcome PE) s0 schedule s (rw : urlRewriter PE) :
  NewRouter i ao (inl sel) m o = Some (inl s0) ->
  exec schedule s0 = Some s ->
  rewriter (router s) = Some rw ->
  (1 <= length (selector.Selection (captured rw)))%nat /\
  forall (r : Router PE AO S) (u : URL) (idx : Z) (st : S),
    selector.NextIndex (selector.Strategy (selector r))
                       (selector.Selection (captured rw)) = (idx, st) ->
    0 <= idx < Z.of_nat (length (selector.Selection (captured rw))) ->
    exists target u' r',
      selector.Selection (captured rw) !! Z.to_nat idx = Some target /\
      callRewriter rw u r = Ok (u', r') /\
      Host u' = Host target /\
      Scheme u' = Scheme target.
Proof.
  intros Hnew Hexec Hrw.
  assert (rewriterNonEmpty (router s)) as Hinv.
  { assert (exec (callAlone 0 o ++ [Spawn])
                 (mkSystem (mkRouter sel None None ao i m 0) 1 (mkRWMutex false 0)
                           [mkGoroutine Idle false 0 0] None) = Some s0) as Hboot.
    { unfold NewRouter in Hnew. destruct (exec _ _) as [s1 |]; [| done].
      simpl in Hnew. by injection Hnew as ->. }
    revert Hexec. apply (exec_router_invariant rewriterNonEmpty).
    - intros o' r r'. apply writerPass_rewriter.
    - revert Hboot. apply (exec_router_invariant rewriterNonEmpty).
      + intros o' r r'. apply writerPass_rewriter.
      + by intros rw' [=]. }
  specialize (Hinv rw Hrw). split.
  - destruct (selector.Selection (captured rw)); [done | simpl; lia].
  - intros r u idx st Hnext Hrange.
    destruct (callRewriter_in_range rw u r idx st Hnext Hrange) as (target & Ht & Hcall).
    exists target. eexists. eexists. split; [done |]. split; [exact Hcall |]. done.
Qed.

End LifetimeFacts.

(** ** Callers that did not receive the token *)

Section WaiterFacts.

Context {PE AO S : Type}.
Context `{!selector.StrategyMethods S}.

Implicit Types s : System PE AO S.
Implicit Types g : goroutine.

Lemma all_insert (Q : goroutine -> Prop) (gs : list goroutine) t g' :
  (forall t' g, gs !! t' = Some g -> Q g) ->
  Q g' ->
  forall t' g, <[t := g']> gs !! t' = Some g -> Q g.
Proof.
  intros Hall Hnew t' g Hlook.
  apply list_lookup_insert_Some in Hlook as [(_ & <- & _) | (_ & Hold)]; [done |].
  by eapply Hall.
Qed.

Lemma waiterPath_insert (gs : list goroutine) t g' :
  (forall t' g, gs !! t' = Some g -> waiterPath g) ->
  waiterPath g' ->
  forall t' g, <[t := g']> gs !! t' = Some g -> waiterPath g.
Proof. apply all_insert. Qed.

(** A goroutine that holds the token took it. *)
Ltac from_holder Hw Hpc :=
  intros Htook; simpl in Htook; destruct (Hw Htook) as (_ & Hcases);
  rewrite Hpc in Hcases; destruct Hcases as [? | [? | [? | ?]]]; discriminate.

Lemma perform_waitersIdle a s s' :
  waitersIdle s -> perform a s = Some s' -> waitersIdle s'.
Proof.
  unfold waitersIdle. intros Hinv Hperf. destruct a as [| t | t o]; simpl in Hperf.
  - destruct (crashed s); [done |]. injection Hperf as <-; simpl.
    intros t g Hg. apply lookup_app_Some in Hg as [Hg | (_ & Hg)]; [by eapply Hinv |].
    apply list_lookup_singleton_Some in Hg as (_ & <-).
    intros _. simpl. split; [done | by left].
  - unfold step in Hperf.
    destruct (crashed s); [done |].
    destruct (goroutines s !! t) as [g |] eqn:Hg; simpl in Hperf; [| done].
    pose proof (Hinv t g Hg) as Hw.
    destruct (at_pc g) eqn:Hpc.
    + unfold enter in Hperf. destruct (theConch s); injection Hperf as <-; simpl;
        apply waiterPath_insert; try done; intros Htook; simpl in *; try done.
      split; [done | right; by left].
    + destruct (writer _); [done |]. injection Hperf as <-; simpl.
      apply waiterPath_insert; [done |]. from_holder Hw Hpc.
    + destruct (readers _); [| done]. injection Hperf as <-; simpl.
      apply waiterPath_insert; [done |]. from_holder Hw Hpc.
    + injection Hperf as <-; simpl.
      apply waiterPath_insert; [done |]. from_holder Hw Hpc.
    + done.
    + destruct (theConch s); [| done]. injection Hperf as <-; simpl.
      apply waiterPath_insert; [done |]. from_holder Hw Hpc.
    + injection Hperf as <-; simpl.
      apply waiterPath_insert; [done |].
      intros Htook; simpl in Htook; destruct (Hw Htook) as (_ & Hcases);
        rewrite Hpc in Hcases; destruct Hcases as [? | [? | [? | ?]]]; discriminate.
    + destruct (writer _); [done |]. injection Hperf as <-; simpl.
      apply waiterPath_insert; [done |].
      intros Htook; simpl in *. destruct (Hw Htook) as (Hcalls & _).
      split; [done | right; right; by left].
    + injection Hperf as <-; simpl.
      apply waiterPath_insert; [done |].
      intros Htook; simpl in *. destruct (Hw Htook) as (Hcalls & _).
      split; [done | right; right; by right].
    + unfold enter in Hperf. destruct (theConch s); injection Hperf as <-; simpl;
        apply waiterPath_insert; try done; intros Htook; simpl in *; try done.
      split; [done | right; by left].
  - unfold selectReturns in Hperf.
    destruct (crashed s); [done |].
    destruct (goroutines s !! t) as [g |] eqn:Hg; simpl in Hperf; [| done].
    pose proof (Hinv t g Hg) as Hw.
    destruct (at_pc g) eqn:Hpc; try done.
    destruct (writerPass o (router s)) as [[[] r'] | p]; injection Hperf as <-; simpl;
      [| done].
    apply waiterPath_insert; [done |]. from_holder Hw Hpc.
Qed.

(** Single flight, part two: in every state a schedule leads to, a caller
    whose [select] found the channel empty has not called [Select()] and
    stands on the reader's path, where no step changes the router. *)
Lemma waiters_select_nothing schedule : forall s s',
  waitersIdle s -> exec schedule s = Some s' -> waitersIdle s'.
Proof.
  induction schedule as [| a schedule IH]; intros s s' Hinv Hexec; simpl in Hexec.
  - by injection Hexec as <-.
  - destruct (perform a s) as [s1 |] eqn:Hperf; [| done].
    eapply IH; [| exact Hexec]. by eapply perform_waitersIdle.
Qed.

End WaiterFacts.

(** ** Single flight, from NewRouter on *)

Section SingleFlight.

Context {PE AO S : Type}.
Context `{!selector.StrategyMethods S}.

Implicit Types s : System PE AO S.
Implicit Types g : goroutine.

Lemma eventsSeen_mono n g : eventsSeen n g -> eventsSeen (Datatypes.S n) g.
Proof.
  intros (Hle & Hlt & Hread). split; [| split]; [lia | | done].
  intros _ _. lia.
Qed.

(** Closes the goal [eventsSeen n g'] for a goroutine [g'] one step after
    [g], from what is known of [g]. *)
Ltac seen_step Hw Hpc :=
  destruct Hw as (Hle & Hlt & Hread); rewrite Hpc in Hlt, Hread;
  (split; [| split]); simpl;
  [ first [done | lia]
  | try (intros Htook Hafter; first [discriminate Hafter | by apply Hlt])
  | try (intros [Hat | Hat]; first [discriminate Hat | apply Hread; by auto]) ].

Lemma perform_eventsBound a s s' :
  eventsBound s -> perform a s = Some s' -> eventsBound s'.
Proof.
  unfold eventsBound. intros Hinv Hperf. destruct a as [| t | t o]; simpl in Hperf.
  - destruct (crashed s); [done |]. injection Hperf as <-; simpl.
    intros t g Hg. apply lookup_app_Some in Hg as [Hg | (_ & Hg)]; [by eapply Hinv |].
    apply list_lookup_singleton_Some in Hg as (_ & <-).
    (split; [| split]); simpl; [lia | done | by intros [|]].
  - unfold step in Hperf.
    destruct (crashed s); [done |].
    destruct (goroutines s !! t) as [g |] eqn:Hg; simpl in Hperf; [| done].
    pose proof (Hinv t g Hg) as Hw.
    destruct (at_pc g) eqn:Hpc.
    + unfold enter in Hperf. destruct (theConch s); injection Hperf as <-; simpl;
        (apply all_insert; [done |]); (split; [| split]); simpl; try done; try lia; by intros [|].
    + destruct (writer _); [done |]. injection Hperf as <-; simpl.
      apply all_insert; [done |]. seen_step Hw Hpc.
    + destruct (readers _); [| done]. injection Hperf as <-; simpl.
      apply all_insert; [done |]. seen_step Hw Hpc.
    + injection Hperf as <-; simpl.
      apply all_insert; [done |]. seen_step Hw Hpc.
    + done.
    + destruct (theConch s); [| done]. injection Hperf as <-; simpl.
      apply all_insert; [done |]. seen_step Hw Hpc.
    + injection Hperf as <-; simpl.
      apply all_insert; [done |]. seen_step Hw Hpc.
    + destruct (writer _); [done |]. injection Hperf as <-; simpl.
      apply all_insert; [done |]. seen_step Hw Hpc.
    + injection Hperf as <-; simpl.
      apply all_insert; [done |].
      destruct Hw as (Hle & Hlt & Hread); rewrite Hpc in Hread.
      (split; [| split]); simpl; [done | | by intros [|]].
      intros Htook _. rewrite Hread in Htook; [done | by right].
    + unfold enter in Hperf. destruct (theConch s); injection Hperf as <-; simpl;
        (apply all_insert; [done |]); (split; [| split]); simpl; try done; try lia; by intros [|].
  - unfold selectReturns in Hperf.
    destruct (crashed s); [done |].
    destruct (goroutines s !! t) as [g |] eqn:Hg; simpl in Hperf; [| done].
    pose proof (Hinv t g Hg) as Hw.
    destruct (at_pc g) eqn:Hpc; try done.
    destruct (writerPass o (router s)) as [[[] r'] | p] eqn:Hpass;
      injection Hperf as <-; simpl; [| done].
    destruct (writerPass_counts _ _ _ Hpass) as (_ & _ & _ & ->).
    apply all_insert.
    + intros t' g' Hg'. apply eventsSeen_mono. by eapply Hinv.
    + destruct Hw as (Hle & _ & _). (split; [| split]); simpl; [lia | intros; lia | by intros [|]].
Qed.

Lemma exec_eventsBound schedule : forall s s',
  eventsBound s -> exec schedule s = Some s' -> eventsBound s'.
Proof.
  induction schedule as [| a schedule IH]; intros s s' Hinv Hexec; simpl in Hexec.
  - by injection Hexec as <-.
  - destruct (perform a s) as [s1 |] eqn:Hperf; [| done].
    eapply IH; [| exact Hexec]. by eapply perform_eventsBound.
Qed.

(** The system [NewRouter] returns is a good starting point. *)
Lemma NewRouter_wellformed (i : Z) (ao : list AO) (sel : selector.Selector S)
    (m : metricsT) (o : SelectOutcome PE) s0 :
  NewRouter i ao (inl sel) m o = Some (inl s0) ->
  tokenConserved s0 /\ waitersIdle s0 /\ eventsBound s0.
Proof.
  intros Hnew. apply NewRouter_inl in Hnew as (r1 & Hpass & ->).
  destruct (writerPass_counts _ _ _ Hpass) as (_ & _ & _ & Hevents). simpl in Hevents.
  split; [reflexivity |]. split.
  - intros [| [| t]] g Hg; simpl in Hg; [| | done]; injection Hg as <-.
    + by intros [=].
    + intros _. split; [done | by left].
  - intros [| [| t]] g Hg; simpl in Hg; [| | done]; injection Hg as <-;
      unfold eventsSeen; simpl; rewrite Hevents;
      (split; [| split]); try lia; try done; by intros [|].
Qed.

(** Single flight, the part the code keeps.  In every state that a
    schedule of calls by any number of goroutines leads to from the system
    [NewRouter] returns: at most one goroutine is inside [Select()]; a
    caller whose [select] did not receive the token has called [Select()]
    no time and stands on the reader's path; and a caller that did receive
    it has returned only after its own pass was merged and counted. *)
Lemma single_flight (i : Z) (ao : list AO) (sel : selector.Selector S)
    (m : metricsT) (o : SelectOutcome PE) s0 schedule s :
  NewRouter i ao (inl sel) m o = Some (inl s0) ->
  exec schedule s0 = Some s ->
  (forall t1 t2 g1 g2,
     goroutines s !! t1 = Some g1 -> at_pc g1 = Selecting ->
     goroutines s !! t2 = Some g2 -> at_pc g2 = Selecting -> t1 = t2) /\
  (forall t g,
     goroutines s !! t = Some g -> tookConch g = false ->
     selectCalls g = 0%nat /\ at_pc g <> Selecting) /\
  (forall t g,
     goroutines s !! t = Some g -> tookConch g = true -> at_pc g = Returned ->
     (seenEvents g < selectionEvents (metrics (router s)))%nat).
Proof.
  intros Hnew Hexec.
  destruct (NewRouter_wellformed _ _ _ _ _ _ Hnew) as (Htok & Hwait & Hseen).
  split; [| split].
  - intros t1 t2 g1 g2. by apply (one_select_at_a_time schedule s0 s).
  - intros t g Hg Htook.
    destruct (waiters_select_nothing schedule s0 s Hwait Hexec t g Hg Htook)
      as (Hcalls & Hcases).
    split; [done |]. intros Hat. rewrite Hat in Hcases.
    destruct Hcases as [? | [? | [? | ?]]]; discriminate.
  - intros t g Hg Htook Hat.
    destruct (exec_eventsBound schedule s0 s Hseen Hexec t g Hg) as (_ & Hlt & _).
    apply Hlt; [done | by rewrite Hat].
Qed.

End SingleFlight.

(** ** The code on concrete inputs *)

(** C4: with [a] = [[A; B]] and [b] = [[A]], the first elements agree and
    the loop goes on to read [b[1]], past the end of [b]: [equal] panics
    where a total check would answer [false]. *)
Theorem equal_reads_past_shorter_second_slice :
  length [endpointA; endpointB] <> length [endpointA] /\
  equal [endpointA; endpointB] [endpointA] = Panicked IndexOutOfRange.
Proof. split; [simpl; lia | vm_compute; reflexivity]. Qed.

(** C3: the router holds the selection [[A; B]] and a refresh returns the
    non-empty selection [[A]], which differs from it.  The pass panics in
    the comparison: no rewriter is installed and the new result is not
    stored. *)
Theorem shrunk_selection_panics :
  selector.Selection resultA <> [] /\
  selector.Selection resultAB <> selector.Selection resultA /\
  selection routerAB = Some resultAB /\
  writerPass (Some resultA, None) routerAB = Panicked IndexOutOfRange.
Proof. repeat split; try done. Qed.

(** C1: on the system [NewRouter] returns, the refresh loop takes the
    token and, before it has called [Lock()], another goroutine enters
    [doSelection], finds the channel empty, takes and releases the read
    lock and returns.  No [Select()] has run since it entered: the counter
    of selection events still has the value it saw, and the holder of the
    token has not started. *)
Theorem waiter_returns_before_selection :
  NewRouter 10000000000 ["sourceip"; "cookies"] (inl (selector.mkSelector 0%nat))
            (mkMetrics 0 0) (Some resultAB, None) = Some (inl bootedSystem) /\
  exists s,
    exec raceSchedule bootedSystem = Some s /\
    goroutines s !! 1%nat = Some (mkGoroutine HasConch true 1 0) /\
    goroutines s !! 2%nat = Some (mkGoroutine Returned false 1 0) /\
    selectionEvents (metrics (router s)) = 1%nat /\
    ~ returnsAfterSelection s.
Proof.
  split; [vm_compute; reflexivity |].
  eexists. split; [vm_compute; reflexivity |].
  repeat split.
  intros Hclaim. specialize (Hclaim 2%nat _ eq_refl eq_refl). simpl in Hclaim. lia.
Qed.

(** C6, as the claim has it, fails: a router whose stored result has two
    candidates of which one is admitted reports both candidates, so under
    no reading of a candidate as a URL is the list reported the list of
    admitted endpoints. *)
Lemma Status_reports_all_candidates :
  selection routerA = Some resultA /\
  selector.Selection resultA = [endpointA] /\
  exists st,
    Router_Status fmtString routerA = Ok (st, routerA) /\
    Endpoints st = ["10.0.0.1:9090"; "10.0.0.2:9090"] /\
    forall urlOf : string -> URL, urlOf <$> Endpoints st <> selector.Selection resultA.
Proof.
  repeat split. eexists. split; [vm_compute; reflexivity |]. split; [done |].
  intros urlOf Heq. apply (f_equal length) in Heq. simpl in Heq. lia.
Qed.

(** ** The theorems at concrete inputs *)

(** A discovery error after [resultAB] was stored leaves it stored. *)
Lemma last_known_good_on_error_witness :
  selector.Selection resultNone = [] /\
  exists r',
    writerPass (Some resultNone, Some "connection refused") routerAB = Ok (tt, r') /\
    selection r' = Some resultAB /\
    rewriter r' = rewriter routerAB.
Proof.
  split; [reflexivity |].
  apply (last_known_good_on_error routerAB resultNone "connection refused").
  reflexivity.
Defined.

(** An empty discovery without error replaces [resultAB]. *)
Lemma empty_discovery_adopted_witness :
  selector.Selection resultNone = [] /\
  exists r',
    writerPass (Some resultNone, None) routerAB = Ok (tt, r') /\
    selection r' = Some resultNone.
Proof.
  split; [reflexivity |].
  apply (empty_discovery_adopted routerAB resultNone). reflexivity.
Defined.

(** The first pass of a fresh router over [resultAB]: gauge 2, counter 1. *)
Lemma metrics_per_refresh_witness :
  writerPass (Some resultAB, None) freshRouter = Ok (tt, routerAB) /\
  exists result,
    Some resultAB = Some result /\
    selectedBackends (metrics routerAB) = Z.of_nat (length (selector.Selection result)) /\
    selectionEvents (metrics routerAB) = Datatypes.S (selectionEvents (metrics freshRouter)).
Proof.
  split; [reflexivity |].
  apply (metrics_per_refresh (Some resultAB, None) freshRouter routerAB). reflexivity.
Defined.

(** The status of [routerA]. *)
Lemma Status_projection_witness :
  selection routerA = Some resultA /\
  Router_Status fmtString routerA =
    Ok (mkStatus ["10.0.0.1:9090"; "10.0.0.2:9090"] "rotate"
                 "picks the admitted endpoints in turn" "sourceip cookies" "none"
                 10000000000,
        routerA).
Proof.
  split; [reflexivity |].
  rewrite (Status_projection fmtString routerA resultA eq_refl).
  vm_compute. reflexivity.
Defined.

(** The three transports under a buffer that allows ten attempts. *)
Lemma retry_bound_witness :
  (1 <= 10)%nat /\
  (fst (ServeHTTP failsOnce 10) <= 2)%nat /\
  ServeHTTP failsOnce 10 = (2%nat, Success) /\
  ServeHTTP alwaysFails 10 = (2%nat, NetworkError) /\
  ServeHTTP appError 10 = (1%nat, ApplicationError).
Proof.
  split; [lia |]. split; [| split; [| split]].
  - apply (retry_bound failsOnce 10). lia.
  - apply (retry_bound failsOnce 10); [lia | reflexivity | reflexivity].
  - apply (retry_bound alwaysFails 10); [lia | reflexivity | reflexivity].
  - apply (retry_bound appError 10); [lia | discriminate].
Defined.

(** [NewRouter] over [resultAB], and everything after. *)
Lemma selection_never_nil_witness :
  NewRouter 10000000000 ["sourceip"; "cookies"] (inl (selector.mkSelector 0%nat))
            (mkMetrics 0 0) (Some resultAB, None) = Some (inl bootedSystem) /\
  (exists result,
     Some resultAB = Some result /\
     selection (router bootedSystem) = Some result /\
     selectionEvents (metrics (router bootedSystem)) = 1%nat) /\
  forall schedule s,
    exec schedule bootedSystem = Some s ->
    selection (router s) <> None /\
    exists st, Router_Status fmtString (router s) = Ok (st, router s).
Proof.
  split; [vm_compute; reflexivity |].
  apply (selection_never_nil fmtString 10000000000 ["sourceip"; "cookies"]
           (selector.mkSelector 0%nat) (mkMetrics 0 0) (Some resultAB, None) bootedSystem).
  vm_compute; reflexivity.
Defined.

(** The rewriter [NewRouter] installs over [resultAB], called with the
    rotating strategy. *)
Lemma installed_rewriter_in_range_witness :
  NewRouter 10000000000 ["sourceip"; "cookies"] (inl (selector.mkSelector 0%nat))
            (mkMetrics 0 0) (Some resultAB, None) = Some (inl bootedSystem) /\
  exec [] bootedSystem = Some bootedSystem /\
  rewriter (router bootedSystem) = Some (mkRewriter resultAB) /\
  (1 <= length (selector.Selection resultAB))%nat /\
  forall (r : Router string string nat) (u : URL) (idx : Z) (st : nat),
    selector.NextIndex (selector.Strategy (selector r))
                       (selector.Selection resultAB) = (idx, st) ->
    0 <= idx < Z.of_nat (length (selector.Selection resultAB)) ->
    exists target u' r',
      selector.Selection resultAB !! Z.to_nat idx = Some target /\
      callRewriter (mkRewriter resultAB) u r = Ok (u', r') /\
      Host u' = Host target /\
      Scheme u' = Scheme target.
Proof.
  split; [vm_compute; reflexivity |]. split; [reflexivity |]. split; [reflexivity |].
  apply (installed_rewriter_in_range 10000000000 ["sourceip"; "cookies"]
           (selector.mkSelector 0%nat) (mkMetrics 0 0) (Some resultAB, None)
           bootedSystem [] bootedSystem (mkRewriter resultAB));
    [vm_compute; reflexivity | reflexivity | reflexivity].
Defined.

(** * Further properties of the code *)

(** ** equal, contains and backend *)

(** X1: [equal] answers [true] exactly on identical slices. *)
Theorem equal_true_iff_identical (a b : list URL) :
  equal a b = Ok true <-> a = b.
Proof. apply equal_true. Qed.

(** X2: When the first slice is not the longer one, [equal] returns, and its
    answer is whether the slices are identical. *)
Theorem equal_returns_when_first_not_longer (a b : list URL) :
  (length a <= length b)%nat -> equal a b = Ok (bool_decide (a = b)).
Proof. apply equal_total_when_shorter. Qed.

Lemma equal_returns_when_first_not_longer_witness :
  (length [endpointA] <= length [endpointA; endpointB])%nat /\
  equal [endpointA] [endpointA; endpointB] = Ok false.
Proof.
  split; [simpl; lia |].
  rewrite (equal_returns_when_first_not_longer [endpointA] [endpointA; endpointB]);
    [reflexivity | simpl; lia].
Defined.

(** X3: [equal] panics exactly when the second slice is a proper prefix of the
    first; the panic is then an index out of range. *)
Theorem equal_panics_iff_proper_prefix (a b : list URL) (p : panic) :
  equal a b = Panicked p <->
  p = IndexOutOfRange /\ exists c, c <> [] /\ a = b ++ c.
Proof. apply equal_panics. Qed.

Lemma contains_elem (a : list URL) (u : URL) :
  contains a u = true <-> u ∈ a.
Proof.
  induction a as [| v a IH]; simpl.
  - split; [done | by intros ?%elem_of_nil].
  - destruct (decide (u = v)) as [-> | Hne].
    + split; [intros _; apply list_elem_of_here | done].
    + rewrite IH. split.
      * intros Hin. by apply list_elem_of_further.
      * intros [? | Hin]%elem_of_cons; [done | exact Hin].
Qed.

(** X4: [contains] answers [true] exactly when the URL is an element of the
    slice. *)
Theorem contains_iff_elem (a : list URL) (u : URL) :
  contains a u = true <-> u ∈ a.
Proof. apply contains_elem. Qed.

Lemma append_cons (c : ascii) (s t : string) :
  String c s +:+ t = String c (s +:+ t).
Proof. reflexivity. Qed.

Lemma append_empty (t : string) : "" +:+ t = t.
Proof. reflexivity. Qed.

Lemma scheme_host_split (s1 : string) : forall s2 h1 h2 : string,
  hasByte ":" s1 = false -> hasByte ":" s2 = false ->
  s1 +:+ "://" +:+ h1 = s2 +:+ "://" +:+ h2 ->
  s1 = s2 /\ h1 = h2.
Proof.
  induction s1 as [| c s1 IH]; intros [| d s2] h1 h2 H1 H2 Heq; simpl in H1, H2;
    rewrite ?append_cons, ?append_empty in Heq.
  - by injection Heq as ->.
  - injection Heq as <- _. by destruct (decide _) in H2.
  - injection Heq as -> _. by destruct (decide _) in H1.
  - injection Heq as -> Heq.
    destruct (decide _) in H1; [done |]. destruct (decide _) in H2; [done |].
    destruct (IH s2 h1 h2 H1 H2 Heq) as [-> ->]. done.
Qed.

(** X5: The label [backend] builds tells endpoints apart: for URLs whose
    schemes contain no colon, equal labels mean equal scheme and equal
    host. *)
Theorem backend_injective (u v : URL) :
  hasByte ":" (Scheme u) = false -> hasByte ":" (Scheme v) = false ->
  backend u = backend v ->
  Scheme u = Scheme v /\ Host u = Host v.
Proof. unfold backend. apply scheme_host_split. Qed.

Lemma backend_injective_witness :
  hasByte ":" (Scheme endpointA) = false /\
  hasByte ":" (Scheme (mkURL "http" "" None "10.0.0.1:9090" "/metrics" "" false "" "")) = false /\
  backend endpointA = backend (mkURL "http" "" None "10.0.0.1:9090" "/metrics" "" false "" "") /\
  Scheme endpointA = "http" /\ Host endpointA = "10.0.0.1:9090".
Proof.
  split; [reflexivity |]. split; [reflexivity |]. split; [reflexivity |].
  apply (backend_injective endpointA
           (mkURL "http" "" None "10.0.0.1:9090" "/metrics" "" false "" ""));
    reflexivity.
Defined.

(** ** More on the writer pass *)

Section RefreshFacts.

Context {PE AO S : Type}.
Context `{!selector.StrategyMethods S}.

Implicit Types r : Router PE AO S.
Implicit Types result prev : selector.Result PE.

Lemma equal_same (a : list URL) : equal a a = Ok true.
Proof. by apply equal_true. Qed.

(** A pass over a result without selection, spelled out. *)
Lemma writerPass_empty r result (err : option string) :
  selector.Selection result = [] ->
  writerPass (Some result, err) r =
    Ok (tt, mkRouter (selector r)
              (match err, selection r with
               | Some _, Some prev => Some prev
               | _, _ => Some result
               end)
              (rewriter r) (affinityOptions r) (interval r)
              (mkMetrics 0 (Datatypes.S (selectionEvents (metrics r)))) (installs r)).
Proof.
  intros Hnil. unfold writerPass, bind, deref; simpl.
  unfold mergeResult. rewrite (empty_selection_test _ Hnil), Hnil.
  destruct err as [e |];
    unfold bind, get, ret, setSelection, setSelectedBackends, incSelectionEvents; simpl;
    [destruct (selection r) eqn:Hsel; simpl; rewrite ?Hsel |]; reflexivity.
Qed.

(** A pass over a result with a selection, spelled out. *)
Lemma writerPass_nonempty r result (err : option string) :
  selector.Selection result <> [] ->
  writerPass (Some result, err) r =
    match mergeResult result err r with
    | Ok (_, r1) =>
        Ok (tt, mkRouter (selector r1) (selection r1) (rewriter r1) (affinityOptions r1)
                  (interval r1)
                  (mkMetrics (Z.of_nat (length (selector.Selection result)))
                             (Datatypes.S (selectionEvents (metrics r1))))
                  (installs r1))
    | Panicked p => Panicked p
    end.
Proof.
  intros _. unfold writerPass, bind, deref; simpl.
  by destruct (mergeResult result err r) as [[[] r1] | p].
Qed.

(** X6: A refresh that brings no selection, with or without an error, always
    completes and leaves the installed rewriter where it is: requests keep
    being rewritten to the last non-empty selection, also when the stored
    result now says that there is no backend. *)
Theorem empty_refresh_keeps_rewriter r result (err : option string) :
  selector.Selection result = [] ->
  exists r',
    writerPass (Some result, err) r = Ok (tt, r') /\
    rewriter r' = rewriter r /\
    installs r' = installs r.
Proof.
  intros Hnil. rewrite (writerPass_empty _ _ _ Hnil). by eexists.
Qed.

(** X7: The gauge shows the last refresh, not what is stored: after a
    discovery error that leaves a previous result in place the gauge is 0,
    whatever the number of endpoints the stored result admits. *)
Theorem gauge_follows_last_refresh r prev result (err : string) :
  selection r = Some prev ->
  selector.Selection result = [] ->
  exists r',
    writerPass (Some result, Some err) r = Ok (tt, r') /\
    selection r' = Some prev /\
    selectedBackends (metrics r') = 0.
Proof.
  intros Hprev Hnil. rewrite (writerPass_empty _ _ _ Hnil), Hprev. by eexists.
Qed.

(** A pass over the result that is already stored. *)
Lemma writerPass_again r result (err : option string) :
  selection r = Some result ->
  selector.Selection result <> [] ->
  writerPass (Some result, err) r =
    Ok (tt, mkRouter (selector r) (Some result) (rewriter r) (affinityOptions r)
              (interval r)
              (mkMetrics (Z.of_nat (length (selector.Selection result)))
                         (Datatypes.S (selectionEvents (metrics r))))
              (installs r)).
Proof.
  intros Hsel Hne.
  rewrite (writerPass_nonempty _ _ _ Hne), (mergeResult_nonempty _ _ _ Hne), Hsel.
  by rewrite equal_same.
Qed.

(** X8: Handing the same outcome of [Select()] to a second pass right after a
    completed first one changes nothing but the counter of selection
    events: the second pass completes, installs no rewriter and stores the
    same result. *)
Theorem refresh_idempotent (o : SelectOutcome PE) r r1 :
  writerPass o r = Ok (tt, r1) ->
  exists r2,
    writerPass o r1 = Ok (tt, r2) /\
    selection r2 = selection r1 /\
    rewriter r2 = rewriter r1 /\
    installs r2 = installs r1 /\
    selectedBackends (metrics r2) = selectedBackends (metrics r1) /\
    selectionEvents (metrics r2) = Datatypes.S (selectionEvents (metrics r1)).
Proof.
  destruct o as [[result |] err]; [| done].
  destruct (decide (selector.Selection result = [])) as [Hnil | Hne].
  - rewrite !(writerPass_empty _ _ _ Hnil). intros [= <-]; simpl.
    eexists. split; [reflexivity |]. simpl.
    destruct err as [e |], (selection r); done.
  - intros Hfirst.
    assert (selection r1 = Some result /\
            selectedBackends (metrics r1) = Z.of_nat (length (selector.Selection result)))
      as [Hstored Hgauge].
    { revert Hfirst.
      rewrite (writerPass_nonempty _ _ _ Hne), (mergeResult_nonempty _ _ _ Hne).
      destruct (selection r) as [prev |]; [destruct (equal _ _) as [[|] | p] |];
        try done; by intros [= <-]. }
    rewrite (writerPass_again _ _ _ Hstored Hne). eexists. split; [reflexivity |].
    simpl. by rewrite Hgauge.
Qed.

(** X9: One pass installs at most one rewriter, never removes one, and leaves
    the rewriter alone when it installs none. *)
Theorem installs_per_pass (o : SelectOutcome PE) r r' :
  writerPass o r = Ok (tt, r') ->
  (installs r' = installs r /\ rewriter r' = rewriter r) \/
  (installs r' = Datatypes.S (installs r) /\
   exists result, fst o = Some result /\ rewriter r' = Some (mkRewriter result)).
Proof.
  destruct o as [[result |] err]; [| done].
  destruct (decide (selector.Selection result = [])) as [Hnil | Hne].
  - rewrite (writerPass_empty _ _ _ Hnil). intros [= <-]. by left.
  - rewrite (writerPass_nonempty _ _ _ Hne), (mergeResult_nonempty _ _ _ Hne).
    destruct (selection r) as [prev |].
    + destruct (equal _ _) as [[|] | p]; [| | done]; intros [= <-]; simpl.
      * by left.
      * right. split; [done |]. by exists result.
    + intros [= <-]; simpl. right. split; [done |]. by exists result.
Qed.

(** X10: A run of passes, when it completes, has counted each of its passes
    and installed at most one rewriter per pass. *)
Theorem runPasses_counts (os : list (SelectOutcome PE)) : forall r r',
  runPasses os r = Ok r' ->
  selectionEvents (metrics r') = (selectionEvents (metrics r) + length os)%nat /\
  (installs r <= installs r' <= installs r + length os)%nat.
Proof.
  induction os as [| o os IH]; intros r r' Hrun; simpl in Hrun.
  - injection Hrun as <-. simpl. lia.
  - destruct (writerPass o r) as [[[] r1] | p] eqn:Hpass; [| done].
    destruct (IH _ _ Hrun) as (Hev & Hinst).
    destruct (writerPass_counts _ _ _ Hpass) as (_ & _ & _ & Hev1).
    assert (installs r <= installs r1 <= Datatypes.S (installs r))%nat as Hinst1.
    { revert Hpass. clear. intros Hpass.
      destruct o as [[result |] err]; [| done].
      destruct (decide (selector.Selection result = [])) as [Hnil | Hne].
      - rewrite (writerPass_empty _ _ _ Hnil) in Hpass. injection Hpass as <-. simpl. lia.
      - rewrite (writerPass_nonempty _ _ _ Hne), (mergeResult_nonempty _ _ _ Hne) in Hpass.
        destruct (selection r) as [prev |].
        + destruct (equal _ _) as [[|] | p]; [| | done]; injection Hpass as <-; simpl; lia.
        + injection Hpass as <-; simpl; lia. }
    simpl. lia.
Qed.

(** X11: When a pass panics, and with what: on a nil result (nil dereference),
    and on a result with a selection of which the stored selection is a
    proper extension (index out of range).  Nothing else makes it panic. *)
Theorem writerPass_panics_iff (o : SelectOutcome PE) r (p : panic) :
  writerPass o r = Panicked p <->
  (fst o = None /\ p = NilDereference) \/
  (exists result prev c,
     fst o = Some result /\ selection r = Some prev /\
     selector.Selection result <> [] /\ c <> [] /\
     selector.Selection prev = selector.Selection result ++ c /\
     p = IndexOutOfRange).
Proof.
  destruct o as [[result |] err]; simpl.
  - destruct (decide (selector.Selection result = [])) as [Hnil | Hne].
    + rewrite (writerPass_empty _ _ _ Hnil). split; [done |].
      intros [[[=] _] | (res & prev & c & [= <-] & _ & Hne & _)]. done.
    + rewrite (writerPass_nonempty _ _ _ Hne), (mergeResult_nonempty _ _ _ Hne).
      destruct (selection r) as [prev |] eqn:Hsel.
      * destruct (equal _ _) as [[|] | q] eqn:Heq.
        -- split; [done |].
           intros [[[=] _] | (res & prev' & c & [= <-] & [= <-] & _ & Hc & Happ & _)].
           assert (equal (selector.Selection prev) (selector.Selection result) =
                   Panicked IndexOutOfRange) as Hpanic
             by (apply equal_panics; split; [done | by exists c]).
           congruence.
        -- split; [done |].
           intros [[[=] _] | (res & prev' & c & [= <-] & [= <-] & _ & Hc & Happ & _)].
           assert (equal (selector.Selection prev) (selector.Selection result) =
                   Panicked IndexOutOfRange) as Hpanic
             by (apply equal_panics; split; [done | by exists c]).
           congruence.
        -- apply equal_panics in Heq as [-> (c & Hc & Happ)]. split.
           ++ intros [= <-]. right. by exists result, prev, c.
           ++ intros [[[=] _] | (_ & _ & _ & _ & _ & _ & _ & _ & ->)]. done.
      * split; [done |].
        intros [[[=] _] | (res & prev' & c & _ & [=] & _)].
  - unfold writerPass, bind, deref; simpl. split.
    + intros [= <-]. by left.
    + intros [[_ ->] | (res & prev & c & [=] & _)]. done.
Qed.


End RefreshFacts.

Lemma empty_refresh_keeps_rewriter_witness :
  selector.Selection resultNone = [] /\
  exists r',
    writerPass (Some resultNone, None) routerAB = Ok (tt, r') /\
    rewriter r' = Some (mkRewriter resultAB) /\
    installs r' = 1%nat.
Proof.
  split; [reflexivity |].
  apply (empty_refresh_keeps_rewriter routerAB resultNone None). reflexivity.
Defined.

Lemma gauge_follows_last_refresh_witness :
  selection routerAB = Some resultAB /\
  selector.Selection resultNone = [] /\
  exists r',
    writerPass (Some resultNone, Some "connection refused") routerAB = Ok (tt, r') /\
    selection r' = Some resultAB /\
    selectedBackends (metrics r') = 0.
Proof.
  split; [reflexivity |]. split; [reflexivity |].
  apply (gauge_follows_last_refresh routerAB resultAB resultNone "connection refused");
    reflexivity.
Defined.

Lemma refresh_idempotent_witness :
  writerPass (Some resultAB, None) freshRouter = Ok (tt, routerAB) /\
  exists r2,
    writerPass (Some resultAB, None) routerAB = Ok (tt, r2) /\
    selection r2 = selection routerAB /\
    rewriter r2 = rewriter routerAB /\
    installs r2 = installs routerAB /\
    selectedBackends (metrics r2) = selectedBackends (metrics routerAB) /\
    selectionEvents (metrics r2) = Datatypes.S (selectionEvents (metrics routerAB)).
Proof.
  split; [reflexivity |].
  apply (refresh_idempotent (Some resultAB, None) freshRouter routerAB). reflexivity.
Defined.

Lemma installs_per_pass_witness :
  writerPass (Some resultAB, None) freshRouter = Ok (tt, routerAB) /\
  ((installs routerAB = installs freshRouter /\ rewriter routerAB = rewriter freshRouter) \/
   (installs routerAB = Datatypes.S (installs freshRouter) /\
    exists result, Some resultAB = Some result /\
                   rewriter routerAB = Some (mkRewriter result))).
Proof.
  split; [reflexivity |].
  apply (installs_per_pass (Some resultAB, None) freshRouter routerAB). reflexivity.
Defined.

Lemma runPasses_counts_witness :
  runPasses [(Some resultAB, None); (Some resultNone, Some "connection refused")]
            freshRouter =
    Ok (mkRouter (selector.mkSelector 0%nat) (Some resultAB) (Some (mkRewriter resultAB))
                 ["sourceip"; "cookies"] 10000000000 (mkMetrics 0 2) 1) /\
  (2 = 0 + 2)%nat /\ (0 <= 1 <= 0 + 2)%nat.
Proof.
  split; [reflexivity |].
  apply (runPasses_counts
           [(Some resultAB, None); (Some resultNone, Some "connection refused")]
           freshRouter
           (mkRouter (selector.mkSelector 0%nat) (Some resultAB) (Some (mkRewriter resultAB))
                     ["sourceip"; "cookies"] 10000000000 (mkMetrics 0 2) 1)).
  reflexivity.
Defined.

(** ** More on the rewriter and on Status *)

Section DispatchFacts.

Context {PE AO S : Type}.
Context `{!selector.StrategyMethods S}.
Context (fmtAffinityOption : AO -> string).

Implicit Types r : Router PE AO S.

(** X12: A call of the rewriter touches nothing but the scheme and the host of
    the URL and the state of the strategy: path, query and the other
    fields of the URL stay, and so does everything else in the router. *)
Theorem rewriter_touches_only_host_and_scheme (rw : urlRewriter PE) (u u' : URL) r r' :
  callRewriter rw u r = Ok (u', r') ->
  (Opaque u' = Opaque u /\ User u' = User u /\ Path u' = Path u /\
   RawPath u' = RawPath u /\ ForceQuery u' = ForceQuery u /\
   RawQuery u' = RawQuery u /\ Fragment u' = Fragment u) /\
  (selection r' = selection r /\ rewriter r' = rewriter r /\
   affinityOptions r' = affinityOptions r /\ interval r' = interval r /\
   metrics r' = metrics r /\ installs r' = installs r).
Proof.
  unfold callRewriter, bind, get, setStrategy, lift, ret.
  destruct (selector.NextIndex _ _) as [i st].
  destruct (index _ i) as [target | p]; [| done].
  by intros [= <- <-].
Qed.

(** X13: Whenever the rewriter returns, the request is on its way to an
    endpoint of the selection the rewriter closes over: the URL carries
    the backend label of one of them. *)
Theorem rewritten_backend_is_admitted (rw : urlRewriter PE) (u u' : URL) r r' :
  callRewriter rw u r = Ok (u', r') ->
  exists target,
    contains (selector.Selection (captured rw)) target = true /\
    backend u' = backend target.
Proof.
  unfold callRewriter, bind, get, setStrategy, lift, ret.
  destruct (selector.NextIndex _ _) as [i st]. unfold index.
  destruct (i <? 0); [done |].
  destruct (selector.Selection (captured rw) !! Z.to_nat i) as [target |] eqn:Ht; [| done].
  intros [= <- <-]. exists target. split; [| done].
  apply contains_elem. by eapply list_elem_of_lookup_2.
Qed.

(** X14: The rewriter does not clamp: it panics, with an index out of range,
    exactly when the strategy answers with an index that is negative or
    not less than the length of the selection. *)
Theorem rewriter_panics_iff (rw : urlRewriter PE) (u : URL) r (p : panic) :
  callRewriter rw u r = Panicked p <->
  p = IndexOutOfRange /\
  let i := fst (selector.NextIndex (selector.Strategy (selector r))
                                   (selector.Selection (captured rw))) in
  i < 0 \/ Z.of_nat (length (selector.Selection (captured rw))) <= i.
Proof.
  unfold callRewriter, bind, get, setStrategy, lift, ret.
  destruct (selector.NextIndex _ _) as [i st]. unfold index. simpl.
  destruct (Z.ltb_spec i 0) as [Hneg | Hpos].
  - split; [intros [= <-]; split; [done | by left] | by intros [-> _]].
  - destruct (selector.Selection (captured rw) !! Z.to_nat i) as [target |] eqn:Ht.
    + split; [done |]. intros [_ [? | Hge]]; [lia |].
      apply lookup_lt_Some in Ht. lia.
    + split; [| by intros [-> _]].
      intros [= <-]. split; [done |]. right.
      apply lookup_ge_None in Ht. lia.
Qed.

(** X15: [Status] returns exactly when a result is stored. *)
Theorem Status_returns_iff_stored r :
  (exists st r', Router_Status fmtAffinityOption r = Ok (st, r')) <->
  selection r <> None.
Proof.
  split.
  - intros (st & r' & Hst) Hnil.
    by rewrite (Status_nil fmtAffinityOption r Hnil) in Hst.
  - destruct (selection r) as [sel |] eqn:Hsel; [| done]. intros _.
    eexists. eexists. by apply Router_Status_stored.
Qed.

(** X16: After a completed refresh [Status] lists the candidates of that
    refresh, except after a discovery error over a stored result: then it
    still lists the candidates of the stored result. *)
Theorem Status_after_refresh (o : SelectOutcome PE) r r' :
  writerPass o r = Ok (tt, r') ->
  exists st result,
    Router_Status fmtAffinityOption r' = Ok (st, r') /\
    fst o = Some result /\
    Endpoints st =
      match selector.Selection result, snd o, selection r with
      | [], Some _, Some prev => selector.Candidates prev
      | _, _, _ => selector.Candidates result
      end.
Proof.
  destruct o as [[result |] err]; [| done].
  destruct (decide (selector.Selection result = [])) as [Hnil | Hne].
  - rewrite (writerPass_empty _ _ _ Hnil). intros [= <-]. simpl.
    destruct err as [e |]; [destruct (selection r) as [prev |] |];
      eexists; exists result; (split; [by apply Router_Status_stored |]);
      rewrite Hnil; done.
  - intros Hpass.
    assert (selection r' = Some result) as Hstored.
    { revert Hpass.
      rewrite (writerPass_nonempty _ _ _ Hne), (mergeResult_nonempty _ _ _ Hne).
      destruct (selection r) as [prev |]; [destruct (equal _ _) as [[|] | p] |];
        try done; by intros [= <-]. }
    eexists. exists result. split; [by apply Router_Status_stored |]. simpl.
    split; [done |]. by destruct (selector.Selection result).
Qed.

End DispatchFacts.

Lemma rewriter_touches_only_host_and_scheme_witness :
  callRewriter (mkRewriter resultAB) incoming routerAB =
    Ok (mkURL "http" "" None "10.0.0.1:9090" "/api/v1/query" "" false "q=up" "",
        mkRouter (selector.mkSelector 1%nat) (Some resultAB) (Some (mkRewriter resultAB))
                 ["sourceip"; "cookies"] 10000000000 (mkMetrics 2 1) 1) /\
  Path (mkURL "http" "" None "10.0.0.1:9090" "/api/v1/query" "" false "q=up" "") =
    Path incoming /\
  RawQuery (mkURL "http" "" None "10.0.0.1:9090" "/api/v1/query" "" false "q=up" "") =
    RawQuery incoming.
Proof.
  split; [reflexivity |].
  pose proof (rewriter_touches_only_host_and_scheme (mkRewriter resultAB) incoming
                (mkURL "http" "" None "10.0.0.1:9090" "/api/v1/query" "" false "q=up" "")
                routerAB
                (mkRouter (selector.mkSelector 1%nat) (Some resultAB)
                          (Some (mkRewriter resultAB))
                          ["sourceip"; "cookies"] 10000000000 (mkMetrics 2 1) 1)
                eq_refl) as [(_ & _ & Hpath & _ & _ & Hquery & _) _].
  split; [exact Hpath | exact Hquery].
Defined.

Lemma rewritten_backend_is_admitted_witness :
  callRewriter (mkRewriter resultAB) incoming routerAB =
    Ok (mkURL "http" "" None "10.0.0.1:9090" "/api/v1/query" "" false "q=up" "",
        mkRouter (selector.mkSelector 1%nat) (Some resultAB) (Some (mkRewriter resultAB))
                 ["sourceip"; "cookies"] 10000000000 (mkMetrics 2 1) 1) /\
  exists target,
    contains [endpointA; endpointB] target = true /\
    backend (mkURL "http" "" None "10.0.0.1:9090" "/api/v1/query" "" false "q=up" "") =
      backend target.
Proof.
  split; [reflexivity |].
  apply (rewritten_backend_is_admitted (mkRewriter resultAB) incoming
           (mkURL "http" "" None "10.0.0.1:9090" "/api/v1/query" "" false "q=up" "")
           routerAB
           (mkRouter (selector.mkSelector 1%nat) (Some resultAB)
                     (Some (mkRewriter resultAB))
                     ["sourceip"; "cookies"] 10000000000 (mkMetrics 2 1) 1)).
  reflexivity.
Defined.

Lemma Status_after_refresh_witness :
  writerPass (Some resultNone, Some "connection refused") routerAB =
    Ok (tt, mkRouter (selector.mkSelector 0%nat) (Some resultAB) (Some (mkRewriter resultAB))
              ["sourceip"; "cookies"] 10000000000 (mkMetrics 0 2) 1) /\
  exists st result,
    Router_Status fmtString
      (mkRouter (selector.mkSelector 0%nat) (Some resultAB) (Some (mkRewriter resultAB))
                ["sourceip"; "cookies"] 10000000000 (mkMetrics 0 2) 1) =
      Ok (st, mkRouter (selector.mkSelector 0%nat) (Some resultAB)
                (Some (mkRewriter resultAB))
                ["sourceip"; "cookies"] 10000000000 (mkMetrics 0 2) 1) /\
    Some resultNone = Some result /\
    Endpoints st =
      match selector.Selection result, Some "connection refused", Some resultAB with
      | [], Some _, Some prev => selector.Candidates prev
      | _, _, _ => selector.Candidates result
      end.
Proof.
  split; [reflexivity |].
  apply (Status_after_refresh fmtString (Some resultNone, Some "connection refused")
           routerAB
           (mkRouter (selector.mkSelector 0%nat) (Some resultAB) (Some (mkRewriter resultAB))
                     ["sourceip"; "cookies"] 10000000000 (mkMetrics 0 2) 1)).
  reflexivity.
Defined.

Lemma Status_affinity_text_witness :
  selection routerA = Some resultA /\
  TrimLeft "sourceip cookies" "[]" = "sourceip cookies" /\
  TrimRight "sourceip cookies" "[]" = "sourceip cookies" /\
  exists st,
    Router_Status fmtString routerA = Ok (st, routerA) /\
    AffinityOptions st = "sourceip cookies".
Proof.
  split; [reflexivity |]. split; [vm_compute; reflexivity |].
  split; [vm_compute; reflexivity |].
  destruct (Status_affinity_text fmtString routerA resultA eq_refl)
    as (st & Hst & Htext); [vm_compute; reflexivity | vm_compute; reflexivity |].
  exists st. split; [exact Hst |]. rewrite Htext. vm_compute. reflexivity.
Defined.

(** ** The mutex, and calls running to their end *)

Section LockFacts.

Context {PE AO S : Type}.
Context `{!selector.StrategyMethods S}.

Implicit Types s : System PE AO S.
Implicit Types g : goroutine.

Lemma work_app (gs1 gs2 : list goroutine) :
  work (gs1 ++ gs2) = (work gs1 + work gs2)%nat.
Proof. induction gs1 as [| g gs1 IH]; simpl; [done | rewrite IH; lia]. Qed.

Lemma work_insert (gs : list goroutine) : forall t g g',
  gs !! t = Some g ->
  (work (<[t := g']> gs) + rank (at_pc g) = work gs + rank (at_pc g'))%nat.
Proof.
  induction gs as [| h gs IH]; intros t g g' Hg; [done |].
  destruct t as [| t]; simpl in *.
  - injection Hg as ->. lia.
  - specialize (IH t g g' Hg). lia.
Qed.

Lemma work_lookup (gs : list goroutine) : forall t g,
  gs !! t = Some g -> (rank (at_pc g) <= work gs)%nat.
Proof.
  induction gs as [| h gs IH]; intros t g Hg; [done |].
  destruct t as [| t]; simpl in *.
  - injection Hg as ->. lia.
  - specialize (IH t g Hg). lia.
Qed.

Lemma work_exists (gs : list goroutine) :
  (1 <= work gs)%nat -> exists t g, gs !! t = Some g /\ (1 <= rank (at_pc g))%nat.
Proof.
  induction gs as [| h gs IH]; simpl; [lia |]. intros Hwork.
  destruct (decide (1 <= rank (at_pc h))%nat) as [Hh | Hh].
  - by exists 0%nat, h.
  - destruct IH as (t & g & Hg & Hrank); [lia |]. by exists (Datatypes.S t), g.
Qed.

Lemma countAt_exists P (gs : list goroutine) :
  (1 <= countAt P gs)%nat -> exists t g, gs !! t = Some g /\ P (at_pc g) = true.
Proof.
  induction gs as [| h gs IH]; simpl; [lia |]. intros Hcount.
  destruct (P (at_pc h)) eqn:Hh.
  - by exists 0%nat, h.
  - destruct IH as (t & g & Hg & HP); [lia |]. by exists (Datatypes.S t), g.
Qed.

Lemma countAt_le P Q (gs : list goroutine) :
  (forall p, P p = true -> Q p = true) -> (countAt P gs <= countAt Q gs)%nat.
Proof.
  intros HPQ. induction gs as [| h gs IH]; simpl; [lia |].
  destruct (P (at_pc h)) eqn:Hh; [rewrite (HPQ _ Hh) |]; destruct (Q (at_pc h)); lia.
Qed.

Lemma countAt_le_work P (gs : list goroutine) :
  (forall p, P p = true -> (1 <= rank p)%nat) -> (countAt P gs <= work gs)%nat.
Proof.
  intros HP. induction gs as [| h gs IH]; simpl; [lia |].
  destruct (P (at_pc h)) eqn:Hh; [pose proof (HP _ Hh) |]; lia.
Qed.

Lemma holds_in_write_lock (p : pc) : holdsWriteLock p = true -> inWriteLock p = true.
Proof. by destruct p. Qed.

(** The three counts before and after goroutine [t] moves from [g] to
    [g']. *)
Ltac counts s t g g' Hg Hpc :=
  pose proof (countAt_insert inWriteLock (goroutines s) t g g' Hg) as Hc1;
  pose proof (countAt_insert isReading (goroutines s) t g g' Hg) as Hc2;
  pose proof (countAt_insert holdsWriteLock (goroutines s) t g g' Hg) as Hc3;
  pose proof (countAt_le holdsWriteLock inWriteLock (goroutines s) holds_in_write_lock)
    as Hc4;
  pose proof (countAt_lookup isReading (goroutines s) t g Hg) as Hc5;
  simpl in Hc1, Hc2, Hc3; rewrite Hpc in Hc1, Hc2, Hc3, Hc5; simpl in Hc1, Hc2, Hc3, Hc5.

Lemma perform_lockConsistent a s s' :
  lockConsistent s -> perform a s = Some s' -> lockConsistent s'.
Proof.
  unfold lockConsistent. intros (Hw & Hr & Hx) Hperf.
  destruct a as [| t | t o]; simpl in Hperf.
  - destruct (crashed s); [done |]. injection Hperf as <-; simpl.
    rewrite !countAt_app; simpl. rewrite !Nat.add_0_r. done.
  - unfold step in Hperf.
    destruct (crashed s); [done |].
    destruct (goroutines s !! t) as [g |] eqn:Hg; simpl in Hperf; [| done].
    destruct (at_pc g) eqn:Hpc.
    + unfold enter in Hperf. destruct (theConch s); injection Hperf as <-; simpl;
        match goal with
        | |- context [<[t := ?g']> _] => counts s t g g' Hg Hpc
        end; repeat split; lia.
    + destruct (writer _) eqn:Hwr; [done |]. injection Hperf as <-; simpl.
      counts s t g (at_ g LockWait) Hg Hpc. repeat split; lia.
    + destruct (readers _) eqn:Hrd; [| done]. injection Hperf as <-; simpl.
      counts s t g (at_ g Locked) Hg Hpc. repeat split; lia.
    + injection Hperf as <-; simpl.
      counts s t g (mkGoroutine Selecting (tookConch g) (seenEvents g)
                                (Datatypes.S (selectCalls g))) Hg Hpc.
      repeat split; lia.
    + done.
    + destruct (theConch s); [| done]. injection Hperf as <-; simpl.
      counts s t g (at_ g Unlocking) Hg Hpc. repeat split; lia.
    + injection Hperf as <-; simpl.
      counts s t g (at_ g Returned) Hg Hpc.
      destruct (writer _) eqn:Hwr; repeat split; lia.
    + destruct (writer _) eqn:Hwr; [done |]. injection Hperf as <-; simpl.
      counts s t g (at_ g Reading) Hg Hpc. repeat split; lia.
    + injection Hperf as <-; simpl.
      counts s t g (at_ g Returned) Hg Hpc. repeat split; lia.
    + unfold enter in Hperf. destruct (theConch s); injection Hperf as <-; simpl;
        match goal with
        | |- context [<[t := ?g']> _] => counts s t g g' Hg Hpc
        end; repeat split; lia.
  - unfold selectReturns in Hperf.
    destruct (crashed s); [done |].
    destruct (goroutines s !! t) as [g |] eqn:Hg; simpl in Hperf; [| done].
    destruct (at_pc g) eqn:Hpc; try done.
    destruct (writerPass o (router s)) as [[[] r'] | p]; injection Hperf as <-; simpl;
      [| done].
    counts s t g (at_ g Merged) Hg Hpc. repeat split; lia.
Qed.

Lemma exec_lockConsistent schedule : forall s s',
  lockConsistent s -> exec schedule s = Some s' -> lockConsistent s'.
Proof.
  induction schedule as [| a schedule IH]; intros s s' Hinv Hexec; simpl in Hexec.
  - by injection Hexec as <-.
  - destruct (perform a s) as [s1 |] eqn:Hperf; [| done].
    eapply IH; [| exact Hexec]. by eapply perform_lockConsistent.
Qed.

End LockFacts.

(** ** Calls run to their end *)

Section Liveness.

Context {PE AO S : Type}.
Context `{!selector.StrategyMethods S}.

Implicit Types s : System PE AO S.
Implicit Types g : goroutine.

Lemma not_counted P (gs : list goroutine) t g :
  countAt P gs = 0%nat -> gs !! t = Some g -> P (at_pc g) = false.
Proof.
  intros Hzero Hg. destruct (P (at_pc g)) eqn:HP; [| done].
  pose proof (countAt_lookup P gs t g Hg HP). lia.
Qed.

Lemma selectReturns_merged t (o : SelectOutcome PE) s g r' :
  crashed s = None -> goroutines s !! t = Some g -> at_pc g = Selecting ->
  writerPass o (router s) = Ok (tt, r') ->
  selectReturns t o s =
    Some (mkSystem r' (theConch s) (selectionInProgress s)
                   (<[t := at_ g Merged]> (goroutines s)) None).
Proof.
  intros Hup Hg Hpc Hpass. unfold selectReturns. rewrite Hup, Hg. simpl.
  by rewrite Hpc, Hpass.
Qed.

(** Shows that the step just taken has used up one unit of work. *)
Ltac less_work s t g Hg Hpc :=
  simpl;
  match goal with
  | |- context [<[t := ?g']> _] =>
      pose proof (work_insert (goroutines s) t g g' Hg) as Hunits;
      rewrite Hpc in Hunits; simpl in Hunits; lia
  end.

(** As long as somebody is inside [doSelection] and the process is up,
    some goroutine inside can take its next step (with [Select()]
    returning, if that is the step): nobody waits for somebody who waits
    for them. *)
Lemma some_call_advances s :
  tokenConserved s -> lockConsistent s -> crashed s = None ->
  (1 <= work (goroutines s))%nat ->
  exists a s',
    perform a s = Some s' /\ crashed s' = None /\
    (work (goroutines s') < work (goroutines s))%nat.
Proof.
  intros Htok (Hw & Hr & Hx) Hup Hwork.
  destruct (decide (1 <= countAt isReading (goroutines s))%nat) as [Hreaders | Hnone].
  { (* a reader releases its lock *)
    destruct (countAt_exists _ _ Hreaders) as (t & g & Hg & HP).
    destruct (at_pc g) eqn:Hpc; try discriminate HP.
    exists (Step t). eexists. simpl. unfold step. rewrite Hup, Hg. simpl. rewrite Hpc.
    split; [reflexivity |]. split; [simpl; first [reflexivity | exact Hup] |]. less_work s t g Hg Hpc. }
  destruct (decide (1 <= countAt holdsWriteLock (goroutines s))%nat) as [Hholder | Hfree].
  { (* the holder of the write lock goes on *)
    destruct (countAt_exists _ _ Hholder) as (t & g & Hg & HP).
    destruct (at_pc g) eqn:Hpc; try discriminate HP.
    - exists (Step t). eexists. simpl. unfold step. rewrite Hup, Hg. simpl. rewrite Hpc.
      split; [reflexivity |]. split; [simpl; first [reflexivity | exact Hup] |]. less_work s t g Hg Hpc.
    - exists (SelectReturns t (Some (selector.mkResult [] []), None)). eexists.
      split.
      * simpl. eapply selectReturns_merged; [done.. |].
        apply (writerPass_empty (router s) (selector.mkResult [] []) None eq_refl).
      * split; [reflexivity |]. less_work s t g Hg Hpc.
    - assert (theConch s = 0%nat) as Hconch.
      { assert (holdsConch (at_pc g) = true) as Hh by (by rewrite Hpc).
        pose proof (countAt_lookup holdsConch _ _ _ Hg Hh).
        unfold tokenConserved in Htok. lia. }
      exists (Step t). eexists. simpl. unfold step. rewrite Hup, Hg. simpl.
      rewrite Hpc, Hconch.
      split; [reflexivity |]. split; [simpl; first [reflexivity | exact Hup] |]. less_work s t g Hg Hpc.
    - exists (Step t). eexists. simpl. unfold step. rewrite Hup, Hg. simpl. rewrite Hpc.
      split; [reflexivity |]. split; [simpl; first [reflexivity | exact Hup] |]. less_work s t g Hg Hpc. }
  assert (readers (selectionInProgress s) = 0%nat) as Hrd by lia.
  destruct (decide (1 <= countAt inWriteLock (goroutines s))%nat) as [Hwaiting | Hnowriter].
  { (* the announced writer finds no reader in its way *)
    destruct (countAt_exists _ _ Hwaiting) as (t & g & Hg & HP).
    assert (holdsWriteLock (at_pc g) = false) as Hnot
      by (eapply not_counted; [| exact Hg]; lia).
    destruct (at_pc g) eqn:Hpc; try discriminate HP; try discriminate Hnot.
    exists (Step t). eexists. simpl. unfold step. rewrite Hup, Hg. simpl.
    rewrite Hpc, Hrd.
    split; [reflexivity |]. split; [simpl; first [reflexivity | exact Hup] |]. less_work s t g Hg Hpc. }
  (* nobody has announced a write lock: the mutex lets everybody in *)
  assert (writer (selectionInProgress s) = false) as Hwr
    by (destruct (writer _); [lia | done]).
  destruct (work_exists _ Hwork) as (t & g & Hg & Hrank).
  assert (isReading (at_pc g) = false) as Hn1 by (eapply not_counted; [| exact Hg]; lia).
  assert (inWriteLock (at_pc g) = false) as Hn2 by (eapply not_counted; [| exact Hg]; lia).
  destruct (at_pc g) eqn:Hpc; try discriminate Hn1; try discriminate Hn2;
    try (simpl in Hrank; lia).
  - exists (Step t). eexists. simpl. unfold step. rewrite Hup, Hg. simpl.
    rewrite Hpc, Hwr.
    split; [reflexivity |]. split; [simpl; first [reflexivity | exact Hup] |]. less_work s t g Hg Hpc.
  - exists (Step t). eexists. simpl. unfold step. rewrite Hup, Hg. simpl.
    rewrite Hpc, Hwr.
    split; [reflexivity |]. split; [simpl; first [reflexivity | exact Hup] |]. less_work s t g Hg Hpc.
Qed.

(** With nobody inside, the token is in the channel and the mutex is
    free. *)
Lemma idle_is_quiescent s :
  tokenConserved s -> lockConsistent s -> crashed s = None ->
  work (goroutines s) = 0%nat -> quiescent s.
Proof.
  intros Htok (Hw & Hr & _) Hup Hwork.
  assert (countAt holdsConch (goroutines s) = 0%nat) as H1.
  { pose proof (countAt_le_work holdsConch (goroutines s)) as Hle.
    rewrite Hwork in Hle. apply Nat.le_0_r, Hle. intros []; simpl; (done || lia). }
  assert (countAt inWriteLock (goroutines s) = 0%nat) as H2.
  { pose proof (countAt_le_work inWriteLock (goroutines s)) as Hle.
    rewrite Hwork in Hle. apply Nat.le_0_r, Hle. intros []; simpl; (done || lia). }
  assert (countAt isReading (goroutines s) = 0%nat) as H3.
  { pose proof (countAt_le_work isReading (goroutines s)) as Hle.
    rewrite Hwork in Hle. apply Nat.le_0_r, Hle. intros []; simpl; (done || lia). }
  unfold tokenConserved in Htok.
  split; [done |]. split; [lia |]. split; [| done].
  destruct (selectionInProgress s) as [w n]; simpl in *.
  destruct w; [lia |]. f_equal. lia.
Qed.

Lemma can_quiesce (n : nat) : forall s,
  (work (goroutines s) <= n)%nat ->
  tokenConserved s -> lockConsistent s -> crashed s = None ->
  exists schedule s', exec schedule s = Some s' /\ quiescent s'.
Proof.
  induction n as [| n IH]; intros s Hn Htok Hlock Hup.
  - exists [], s. split; [done |]. apply idle_is_quiescent; try done. lia.
  - destruct (decide (work (goroutines s) = 0%nat)) as [Hzero | Hpos].
    + exists [], s. split; [done |]. by apply idle_is_quiescent.
    + destruct (some_call_advances s Htok Hlock Hup) as (a & s1 & Hperf & Hup1 & Hless);
        [lia |].
      destruct (IH s1) as (schedule & s' & Hexec & Hq); try done.
      * lia.
      * by eapply perform_tokenConserved.
      * by eapply perform_lockConsistent.
      * exists (a :: schedule), s'. split; [| done]. simpl. by rewrite Hperf.
Qed.

End Liveness.

(** ** The whole life of a router *)

Section RouterLife.

Context {PE AO S : Type}.
Context `{!selector.StrategyMethods S}.

Implicit Types s : System PE AO S.
Implicit Types g : goroutine.

(** Reduces the projections and updates of a system, and nothing else. *)
Ltac proj :=
  cbn [crashed goroutines selectionInProgress theConch router writer readers
       at_pc tookConch seenEvents selectCalls mbind option_bind
       moveTo setMutex at_ enter perform].

Lemma exec_cons a schedule s s1 s' :
  perform a s = Some s1 -> exec schedule s1 = Some s' ->
  exec (a :: schedule) s = Some s'.
Proof. intros Hperf Hexec. simpl. by rewrite Hperf. Qed.



(** One call with nobody else inside, step by step. *)
Lemma callAlone_quiescent t (o : SelectOutcome PE) s g r' :
  quiescent s -> goroutines s !! t = Some g ->
  writerPass o (router s) = Ok (tt, r') ->
  exec (callAlone t o) s =
    Some (mkSystem r' 1 (mkRWMutex false 0)
            (<[t := mkGoroutine Returned true (selectionEvents (metrics (router s))) 1]>
               (goroutines s)) None).
Proof.
  destruct s as [r c m gs cr]; unfold quiescent; proj.
  intros (Hwork & -> & -> & ->) Hg Hpass.
  assert (t < length gs)%nat as Hlen by (by eapply lookup_lt_Some).
  assert (at_pc g = Idle \/ at_pc g = Returned) as Hpc.
  { pose proof (work_lookup gs t g Hg) as Hrank. rewrite Hwork in Hrank.
    destruct (at_pc g); simpl in Hrank; auto; lia. }
  unfold callAlone.
  eapply exec_cons.
  { proj. unfold step. proj. rewrite Hg. proj. by destruct Hpc as [-> | ->]. }
  proj.
  do 3 (eapply exec_cons;
        [ proj; unfold step; proj;
          rewrite list_lookup_insert_eq by (by rewrite ?length_insert); proj; reflexivity
        | rewrite ?list_insert_insert_eq ]).
  eapply exec_cons.
  { proj. unfold selectReturns. proj.
    rewrite list_lookup_insert_eq by (by rewrite ?length_insert). proj.
    rewrite Hpass. reflexivity. }
  proj. rewrite ?list_insert_insert_eq.
  do 2 (eapply exec_cons;
        [ proj; unfold step; proj;
          rewrite list_lookup_insert_eq by (by rewrite ?length_insert); proj; reflexivity
        | rewrite ?list_insert_insert_eq ]).
  unfold exec, moveTo, setMutex, at_; simpl. rewrite ?list_insert_insert_eq. reflexivity.
Qed.

Lemma NewRouter_lockConsistent (i : Z) (ao : list AO) (sel : selector.Selector S)
    (m : metricsT) (o : SelectOutcome PE) s0 :
  NewRouter i ao (inl sel) m o = Some (inl s0) -> lockConsistent s0.
Proof.
  intros Hnew. apply NewRouter_inl in Hnew as (r1 & _ & ->).
  split; [reflexivity |]. split; [reflexivity |]. done.
Qed.

(** X18: [NewRouter] has three ways to end: with the error of [NewSelector]
    (and then without any selection made), with a router, when the first
    [Select()] hands back a result, and in a panic, when it hands back
    nil. *)
Theorem NewRouter_outcomes (i : Z) (ao : list AO)
    (newSelector : selector.Selector S + string) (m : metricsT) (o : SelectOutcome PE) :
  match newSelector, fst o with
  | inr err, _ => NewRouter i ao newSelector m o = Some (inr err)
  | inl _, Some _ => exists s0, NewRouter i ao newSelector m o = Some (inl s0)
  | inl _, None => NewRouter i ao newSelector m o = None
  end.
Proof.
  destruct newSelector as [sel | err]; [| done].
  destruct o as [[result |] err]; simpl.
  - apply NewRouter_returns.
  - unfold NewRouter. by cbv -[selectionEvents].
Qed.

(** X19: The router [NewRouter] returns is at rest: nobody is inside
    [doSelection], the token is back in the channel and the mutex is free.
    It has a rewriter exactly when its first selection admitted an
    endpoint, and it keeps the interval and the affinity options it was
    given. *)
Theorem NewRouter_leaves_router_at_rest (i : Z) (ao : list AO)
    (sel : selector.Selector S) (m : metricsT) (o : SelectOutcome PE) s0 :
  NewRouter i ao (inl sel) m o = Some (inl s0) ->
  quiescent s0 /\
  length (goroutines s0) = 2%nat /\
  interval (router s0) = i /\ affinityOptions (router s0) = ao /\
  exists result,
    fst o = Some result /\
    rewriter (router s0) =
      match selector.Selection result with
      | [] => None
      | _ :: _ => Some (mkRewriter result)
      end.
Proof.
  intros Hnew. apply NewRouter_inl in Hnew as (r1 & Hpass & ->).
  split; [done |]. split; [done |]. simpl.
  destruct o as [[result |] err]; [| done].
  destruct (decide (selector.Selection result = [])) as [Hnil | Hne].
  - rewrite (writerPass_empty _ _ _ Hnil) in Hpass. injection Hpass as <-; simpl.
    split; [done |]. split; [done |]. exists result. by rewrite Hnil.
  - rewrite (writerPass_nonempty _ _ _ Hne), (mergeResult_nonempty _ _ _ Hne) in Hpass.
    simpl in Hpass. injection Hpass as <-; simpl.
    split; [done |]. split; [done |]. exists result.
    by destruct (selector.Selection result).
Qed.


(** X21: A caller that finds the channel empty does no selection work: it
    never calls [Select()] and never stands where the router is
    written. *)
Theorem waiters_never_select (i : Z) (ao : list AO) (sel : selector.Selector S)
    (m : metricsT) (o : SelectOutcome PE) s0 schedule s :
  NewRouter i ao (inl sel) m o = Some (inl s0) ->
  exec schedule s0 = Some s ->
  forall t g,
    goroutines s !! t = Some g -> tookConch g = false ->
    selectCalls g = 0%nat /\ at_pc g <> Selecting.
Proof.
  intros Hnew Hexec. by destruct (single_flight _ _ _ _ _ _ _ _ Hnew Hexec) as (_ & ? & _).
Qed.

(** X22: A caller that received the token returns only after its own pass has
    been merged and counted. *)
Theorem writers_return_after_their_pass (i : Z) (ao : list AO)
    (sel : selector.Selector S) (m : metricsT) (o : SelectOutcome PE) s0 schedule s :
  NewRouter i ao (inl sel) m o = Some (inl s0) ->
  exec schedule s0 = Some s ->
  forall t g,
    goroutines s !! t = Some g -> tookConch g = true -> at_pc g = Returned ->
    (seenEvents g < selectionEvents (metrics (router s)))%nat.
Proof.
  intros Hnew Hexec. by destruct (single_flight _ _ _ _ _ _ _ _ Hnew Hexec) as (_ & _ & ?).
Qed.



(** X25: No deadlock: from every state the router can get into, as long as the
    process is up, the calls in flight can all run to their end, leaving
    the token in the channel and the mutex free. *)
Theorem calls_can_complete (i : Z) (ao : list AO) (sel : selector.Selector S)
    (m : metricsT) (o : SelectOutcome PE) s0 schedule s :
  NewRouter i ao (inl sel) m o = Some (inl s0) ->
  exec schedule s0 = Some s ->
  crashed s = None ->
  exists schedule' s', exec schedule' s = Some s' /\ quiescent s'.
Proof.
  intros Hnew Hexec Hup.
  apply (can_quiesce (work (goroutines s)) s); [lia | | | done].
  - eapply exec_tokenConserved; [| exact Hexec]. by eapply NewRouter_tokenConserved.
  - eapply exec_lockConsistent; [| exact Hexec]. by eapply NewRouter_lockConsistent.
Qed.

(** X26: A call made while nobody else is inside takes the writer's path: it
    receives the token, runs exactly one pass, and leaves the router at
    rest again. *)
Theorem lone_call_runs_one_pass t (o : SelectOutcome PE) s g r' :
  quiescent s -> goroutines s !! t = Some g ->
  writerPass o (router s) = Ok (tt, r') ->
  exists s',
    exec (callAlone t o) s = Some s' /\
    router s' = r' /\
    quiescent s' /\
    goroutines s' !! t =
      Some (mkGoroutine Returned true (selectionEvents (metrics (router s))) 1).
Proof.
  intros Hq Hg Hpass. eexists. split; [by eapply callAlone_quiescent |].
  split; [done |].
  assert (t < length (goroutines s))%nat as Hlen by (by eapply lookup_lt_Some).
  split; [| by apply list_lookup_insert_eq].
  destruct Hq as (Hwork & _). split; [| done]. simpl.
  pose proof (work_insert (goroutines s) t g
                (mkGoroutine Returned true (selectionEvents (metrics (router s))) 1) Hg)
    as Hunits.
  pose proof (work_lookup _ _ _ Hg). simpl in Hunits. lia.
Qed.



End RouterLife.

(** ** The further properties at concrete inputs *)

Lemma NewRouter_leaves_router_at_rest_witness :
  NewRouter 10000000000 ["sourceip"; "cookies"] (inl (selector.mkSelector 0%nat))
            (mkMetrics 0 0) (Some resultAB, None) = Some (inl bootedSystem) /\
  quiescent bootedSystem /\
  length (goroutines bootedSystem) = 2%nat /\
  interval (router bootedSystem) = 10000000000 /\
  affinityOptions (router bootedSystem) = ["sourceip"; "cookies"] /\
  exists result,
    Some resultAB = Some result /\
    rewriter (router bootedSystem) =
      match selector.Selection result with
      | [] => None
      | _ :: _ => Some (mkRewriter result)
      end.
Proof.
  split; [vm_compute; reflexivity |].
  apply (NewRouter_leaves_router_at_rest 10000000000 ["sourceip"; "cookies"]
           (selector.mkSelector 0%nat) (mkMetrics 0 0) (Some resultAB, None) bootedSystem).
  vm_compute; reflexivity.
Defined.


Lemma waiters_never_select_witness :
  NewRouter 10000000000 ["sourceip"; "cookies"] (inl (selector.mkSelector 0%nat))
            (mkMetrics 0 0) (Some resultAB, None) = Some (inl bootedSystem) /\
  exec raceSchedule bootedSystem = Some racedSystem /\
  forall t g,
    goroutines racedSystem !! t = Some g -> tookConch g = false ->
    selectCalls g = 0%nat /\ at_pc g <> Selecting.
Proof.
  split; [vm_compute; reflexivity |]. split; [vm_compute; reflexivity |].
  apply (waiters_never_select 10000000000 ["sourceip"; "cookies"]
           (selector.mkSelector 0%nat) (mkMetrics 0 0) (Some resultAB, None)
           bootedSystem raceSchedule racedSystem); vm_compute; reflexivity.
Defined.

Lemma writers_return_after_their_pass_witness :
  NewRouter 10000000000 ["sourceip"; "cookies"] (inl (selector.mkSelector 0%nat))
            (mkMetrics 0 0) (Some resultAB, None) = Some (inl bootedSystem) /\
  exec raceSchedule bootedSystem = Some racedSystem /\
  forall t g,
    goroutines racedSystem !! t = Some g -> tookConch g = true -> at_pc g = Returned ->
    (seenEvents g < selectionEvents (metrics (router racedSystem)))%nat.
Proof.
  split; [vm_compute; reflexivity |]. split; [vm_compute; reflexivity |].
  apply (writers_return_after_their_pass 10000000000 ["sourceip"; "cookies"]
           (selector.mkSelector 0%nat) (mkMetrics 0 0) (Some resultAB, None)
           bootedSystem raceSchedule racedSystem); vm_compute; reflexivity.
Defined.



Lemma calls_can_complete_witness :
  NewRouter 10000000000 ["sourceip"; "cookies"] (inl (selector.mkSelector 0%nat))
            (mkMetrics 0 0) (Some resultAB, None) = Some (inl bootedSystem) /\
  exec raceSchedule bootedSystem = Some racedSystem /\
  crashed racedSystem = None /\
  exists schedule' s', exec schedule' racedSystem = Some s' /\ quiescent s'.
Proof.
  split; [vm_compute; reflexivity |]. split; [vm_compute; reflexivity |].
  split; [reflexivity |].
  apply (calls_can_complete 10000000000 ["sourceip"; "cookies"]
           (selector.mkSelector 0%nat) (mkMetrics 0 0) (Some resultAB, None)
           bootedSystem raceSchedule racedSystem); vm_compute; reflexivity.
Defined.

Lemma lone_call_runs_one_pass_witness :
  quiescent bootedSystem /\
  goroutines bootedSystem !! 1%nat = Some (mkGoroutine Idle false 0 0) /\
  writerPass (Some resultAB', None) (router bootedSystem) =
    Ok (tt, mkRouter (selector.mkSelector 0%nat) (Some resultAB')
              (Some (mkRewriter resultAB)) ["sourceip"; "cookies"] 10000000000
              (mkMetrics 2 2) 1) /\
  exists s',
    exec (callAlone 1 (Some resultAB', None)) bootedSystem = Some s' /\
    router s' = mkRouter (selector.mkSelector 0%nat) (Some resultAB')
                  (Some (mkRewriter resultAB)) ["sourceip"; "cookies"] 10000000000
                  (mkMetrics 2 2) 1 /\
    quiescent s' /\
    goroutines s' !! 1%nat = Some (mkGoroutine Returned true 1 1).
Proof.
  split; [done |]. split; [reflexivity |]. split; [reflexivity |].
  apply (lone_call_runs_one_pass 1 (Some resultAB', None) bootedSystem
           (mkGoroutine Idle false 0 0)); [done | reflexivity | reflexivity].
Defined.


